(** * Route normalisation, centroid and hazard scan of the Map component

    A shallow embedding of the geometric logic of
    [src/frontend/src/app/components/Map/Map.tsx]:

    - [handleDateLineCrossing] and the route effect that folds it over the
      route ([normalize]);
    - [calculateMeanLatLon];
    - the hazard scan: [checkIntersectionsWithFeatures],
      [handleConeDataIntersection], [handleTrackDataIntersection] and
      [findAndHandleIntersection].

    JavaScript numbers are modelled by exact rationals extended with [NaN]
    and the two infinities: every comparison and every special-value rule of
    the arithmetic the component uses is kept, rounding and overflow of IEEE
    doubles are not modelled, and the sign of zero is not tracked.  The
    theorems below therefore rest on the tests and the case distinctions of
    the code and on the special values, never on a sum, a difference or a
    quotient being exact. *)

From Stdlib Require Import List ZArith QArith Qabs Lia Lqa Bool String Ascii.
Import ListNotations.

Set Implicit Arguments.

(** ** JavaScript numbers *)

Module JsNumber.

Inductive number : Type :=
| NaN
| NegInf
| PosInf
| Fin (q : Q).

Definition ofZ (z : Z) : number := Fin (inject_Z z).

Definition isNaN (a : number) : bool :=
  match a with NaN => true | _ => false end.

(** [a + b] *)
Definition add (a b : number) : number :=
  match a, b with
  | NaN, _ | _, NaN => NaN
  | PosInf, NegInf | NegInf, PosInf => NaN
  | PosInf, _ | _, PosInf => PosInf
  | NegInf, _ | _, NegInf => NegInf
  | Fin x, Fin y => Fin (Qred (x + y))
  end.

(** [a - b] *)
Definition sub (a b : number) : number :=
  match a, b with
  | NaN, _ | _, NaN => NaN
  | PosInf, PosInf | NegInf, NegInf => NaN
  | PosInf, _ | _, NegInf => PosInf
  | NegInf, _ | _, PosInf => NegInf
  | Fin x, Fin y => Fin (Qred (x - y))
  end.

(** [Math.abs(a)] *)
Definition abs (a : number) : number :=
  match a with
  | NaN => NaN
  | NegInf | PosInf => PosInf
  | Fin x => Fin (Qabs x)
  end.

(** [a > b]: false as soon as one side is [NaN]. *)
Definition gtb (a b : number) : bool :=
  match a, b with
  | NaN, _ | _, NaN => false
  | PosInf, PosInf => false
  | PosInf, _ => true
  | _, PosInf => false
  | NegInf, _ => false
  | Fin _, NegInf => true
  | Fin x, Fin y => negb (Qle_bool x y)
  end.

(** [a <= b]: false as soon as one side is [NaN]. *)
Definition leb (a b : number) : bool :=
  match a, b with
  | NaN, _ | _, NaN => false
  | NegInf, _ => true
  | _, PosInf => true
  | _, NegInf => false
  | PosInf, _ => false
  | Fin x, Fin y => Qle_bool x y
  end.

(** [a / b].  The only divisor of the component is an array length, so a
    zero divisor is the positive zero. *)
Definition div (a b : number) : number :=
  match a, b with
  | NaN, _ | _, NaN => NaN
  | (PosInf | NegInf), (PosInf | NegInf) => NaN
  | PosInf, Fin y => if Qle_bool 0 y then PosInf else NegInf
  | NegInf, Fin y => if Qle_bool 0 y then NegInf else PosInf
  | Fin _, (PosInf | NegInf) => Fin 0
  | Fin x, Fin y =>
      if Qeq_bool y 0 then
        if Qeq_bool x 0 then NaN
        else if Qle_bool 0 x then PosInf else NegInf
      else Fin (Qred (x / y))
  end.

End JsNumber.

Import JsNumber.

Declare Scope js_scope.
Delimit Scope js_scope with js.
Bind Scope js_scope with number.
Infix "+" := add : js_scope.
Infix "-" := sub : js_scope.
Infix "/" := div : js_scope.
Infix ">?" := gtb (at level 70, no associativity) : js_scope.
Infix "<=?" := leb : js_scope.

(** ** Coordinates *)

(** Leaflet's [LatLngTuple]: [[lat, lon]]. *)
Definition LatLngTuple : Type := (number * number)%type.

Definition latOf (p : LatLngTuple) : number := fst p.
Definition lonOf (p : LatLngTuple) : number := snd p.

(** [arr[arr.length - 1]]: the last element, [undefined] on the empty array. *)
Fixpoint lastElement (A : Type) (arr : list A) : option A :=
  match arr with
  | [] => None
  | [x] => Some x
  | _ :: rest => lastElement rest
  end.

(** ** The longitude normaliser *)

Definition handleDateLineCrossing
    (prev : option LatLngTuple) (current : LatLngTuple) : LatLngTuple :=
  match prev with
  | None => current
  | Some prev =>
      let prevLon := lonOf prev in
      let currLon := lonOf current in
      let lonDifference := abs (currLon - prevLon) in
      if (lonDifference >? ofZ 180)%js then
        let adjustedLon :=
          if (currLon >? prevLon)%js
          then (currLon - ofZ 360)%js
          else (currLon + ofZ 360)%js in
        (latOf current, adjustedLon)
      else current
  end.

(** One turn of the [forEach] of the route effect on already parsed
    coordinates: adjust against the last adjusted point, then push. *)
Definition pushAdjusted
    (adjustedCoordinates : list LatLngTuple) (current : LatLngTuple)
    : list LatLngTuple :=
  adjustedCoordinates
    ++ [handleDateLineCrossing (lastElement adjustedCoordinates) current].

(** [handleDateLineCrossing] applied left to right over the points. *)
Definition normalize (points : list LatLngTuple) : list LatLngTuple :=
  fold_left pushAdjusted points [].

(** ** The centroid *)

Definition calculateMeanLatLon (coordinates : list LatLngTuple) : LatLngTuple :=
  let totalPoints := ofZ (Z.of_nat (List.length coordinates)) in
  let sumLat := fold_left (fun sum coord => (sum + latOf coord)%js) coordinates (ofZ 0) in
  let sumLon := fold_left (fun sum coord => (sum + lonOf coord)%js) coordinates (ofZ 0) in
  ((sumLat / totalPoints)%js, (sumLon / totalPoints)%js).

(** ** The built-in [parseFloat]

    The route context hands latitude and longitude over as strings.  The
    built-in is modelled after ECMAScript: leading white space is skipped, the
    longest prefix that is a [StrDecimalLiteral] is read, and [NaN] is the
    answer when there is none.  A string is a sequence of code units below
    256.  The decimal that is read is kept exact: the rounding to the nearest
    double and the overflow to an infinity of the built-in are not
    modelled. *)

Module ParseFloat.

Local Open Scope Z_scope.

Definition code (c : ascii) : nat := nat_of_ascii c.

Definition isWhiteSpace (c : ascii) : bool :=
  let n := code c in
  ((9 <=? n) && (n <=? 13) || (n =? 32) || (n =? 160))%nat.

Definition isDigit (c : ascii) : bool :=
  let n := code c in ((48 <=? n) && (n <=? 57))%nat.

Definition digitValue (c : ascii) : Z := Z.of_nat (code c) - 48.

Fixpoint trimStart (s : list ascii) : list ascii :=
  match s with
  | c :: rest => if isWhiteSpace c then trimStart rest else s
  | [] => []
  end.

(** The leading [DecimalDigits] of [s], and what follows them. *)
Fixpoint spanDigits (s : list ascii) : list ascii * list ascii :=
  match s with
  | c :: rest =>
      if isDigit c
      then let '(ds, tl) := spanDigits rest in (c :: ds, tl)
      else ([], s)
  | [] => ([], [])
  end.

Definition digitsValue (ds : list ascii) : Z :=
  fold_left (fun acc c => 10 * acc + digitValue c) ds 0.

(** [ExponentPart], when one is there: [e] or [E], an optional sign, and at
    least one digit. *)
Definition exponentPart (s : list ascii) : Z :=
  match s with
  | c :: rest =>
      if ((code c =? 101) || (code c =? 69))%nat then
        match rest with
        | sg :: rest' =>
            if (code sg =? 43)%nat then
              match fst (spanDigits rest') with [] => 0 | ds => digitsValue ds end
            else if (code sg =? 45)%nat then
              match fst (spanDigits rest') with [] => 0 | ds => - digitsValue ds end
            else
              match fst (spanDigits rest) with [] => 0 | ds => digitsValue ds end
        | [] => 0
        end
      else 0
  | [] => 0
  end.

Definition startsWith (prefix s : list ascii) : bool :=
  match list_eq_dec ascii_dec (firstn (List.length prefix) s) prefix with
  | left _ => true
  | right _ => false
  end.

Definition decimal (mantissa : Z) (exponent : Z) : number :=
  Fin (Qred (inject_Z mantissa * Qpower 10 exponent)%Q).

(** [StrUnsignedDecimalLiteral]: [Infinity], or digits with an optional
    fraction and exponent. *)
Definition unsignedLiteral (s : list ascii) : number :=
  if startsWith (list_ascii_of_string "Infinity") s then PosInf
  else
    let '(intDigits, afterInt) := spanDigits s in
    match afterInt with
    | c :: afterDot =>
        if (code c =? 46)%nat then
          let '(fracDigits, afterFrac) := spanDigits afterDot in
          match intDigits, fracDigits with
          | [], [] => NaN
          | _, _ =>
              decimal (digitsValue (intDigits ++ fracDigits))
                      (exponentPart afterFrac - Z.of_nat (List.length fracDigits))
          end
        else
          match intDigits with
          | [] => NaN
          | _ => decimal (digitsValue intDigits) (exponentPart afterInt)
          end
    | [] =>
        match intDigits with
        | [] => NaN
        | _ => decimal (digitsValue intDigits) 0
        end
    end.

Definition negate (a : number) : number :=
  match a with
  | NaN => NaN
  | PosInf => NegInf
  | NegInf => PosInf
  | Fin q => Fin (Qred (- q)%Q)
  end.

Definition parseFloat (input : string) : number :=
  match trimStart (list_ascii_of_string input) with
  | c :: rest =>
      if (code c =? 43)%nat then unsignedLiteral rest
      else if (code c =? 45)%nat then negate (unsignedLiteral rest)
      else unsignedLiteral (c :: rest)
  | [] => NaN
  end.

End ParseFloat.

Import ParseFloat.

(** ** The route effect *)

(** A point of [globalRouteData]; the labels and the cumulative distance it
    also carries are not read by the effect. *)
Record RoutePoint : Type := {
  latitude : string;
  longitude : string
}.

Inductive exception : Type :=
| ParseError.

(** How a call ends: it returns, or it throws. *)
Inductive completion (A : Type) : Type :=
| Normal (a : A)
| Throw (e : exception).

Arguments Throw {A} e.

(** The two pieces of component state the effect sets. *)
Record RouteState : Type := {
  adjustedCoordinates : list LatLngTuple;
  center : option LatLngTuple
}.

Definition parsePoint (point : RoutePoint) : LatLngTuple :=
  (parseFloat (latitude point), parseFloat (longitude point)).

(** The body of [globalRouteData.forEach], on the two local arrays. *)
Definition routeLoopBody
    (arrays : list LatLngTuple * list LatLngTuple) (point : RoutePoint)
    : list LatLngTuple * list LatLngTuple :=
  let '(rawCoordinates, adjusted) := arrays in
  let lat := parseFloat (latitude point) in
  let lon := parseFloat (longitude point) in
  let rawCoordinates := rawCoordinates ++ [(lat, lon)] in
  let adjustedCoords :=
    handleDateLineCrossing (lastElement adjusted) (lat, lon) in
  (rawCoordinates, adjusted ++ [adjustedCoords]).

Definition routeEffect
    (globalRouteData : option (list RoutePoint)) (st : RouteState)
    : completion RouteState :=
  match globalRouteData with
  | Some ((_ :: _) as data) =>
      let '(_, adjusted) := fold_left routeLoopBody data ([], []) in
      Normal {| adjustedCoordinates := adjusted;
                center := Some (calculateMeanLatLon adjusted) |}
  | _ => Normal st
  end.

(** ** The hazard scan *)

(** A GeoJSON position, [[lon, lat]], and the coordinates of a polygon. *)
Definition Position : Type := (number * number)%type.
Definition PolygonCoordinates : Type := list (list Position).

(** A forecast-cone feature: [feature?.geometry?.coordinates]. *)
Record ConeFeature : Type := {
  coneCoordinates : option PolygonCoordinates
}.

(** A track feature: [feature.geometry.coordinates]. *)
Record TrackFeature : Type := {
  trackCoordinates : list Position
}.

(** [forecastConeData]: each copy's [?.features] may be missing. *)
Record ConeData : Type := {
  coneOriginal : option (list ConeFeature);
  coneMinus360 : option (list ConeFeature);
  conePlus360 : option (list ConeFeature)
}.

(** [observedTrackData]: the three copies, each with its [features]. *)
Record TrackData : Type := {
  trackOriginal : list TrackFeature;
  trackMinus360 : list TrackFeature;
  trackPlus360 : list TrackFeature
}.

(** What the scan does that can be observed from outside: the calls of the
    two intersection primitives with their arguments, the alert and the
    console line. *)
Inductive Event : Type :=
| CallLineAndPolygon (route : list LatLngTuple) (polygon : option PolygonCoordinates)
| CallLines (route : list LatLngTuple) (track : list LatLngTuple)
| SwalFireWarning
| ConsoleLogNoIntersection.

(** A computation that records its events in order. *)
Definition Traced (A : Type) : Type := (list Event * A)%type.

Definition ret (A : Type) (a : A) : Traced A := ([], a).

Definition bind (A B : Type) (m : Traced A) (k : A -> Traced B) : Traced B :=
  let '(t1, a) := m in
  let '(t2, b) := k a in
  (t1 ++ t2, b).

Definition tell (e : Event) : Traced unit := ([e], tt).

Definition events (A : Type) (m : Traced A) : list Event := fst m.
Definition result (A : Type) (m : Traced A) : A := snd m.

Notation "x <- m ;; k" := (bind m (fun x => k))
  (at level 61, m at next level, right associativity).
Notation "m ;;; k" := (bind m (fun _ => k))
  (at level 61, right associativity).

(** JavaScript's [a || b] on values that are a tuple or [null]. *)
Definition orElse (A : Type) (a b : option A) : option A :=
  match a with
  | Some _ => a
  | None => b
  end.

Section HazardScan.

(** The two primitives of [~/utils]; they are pure functions of their
    arguments. *)
Variable checkIntersectionBetweenLineAndPolygon :
  list LatLngTuple -> option PolygonCoordinates -> option LatLngTuple.
Variable checkIntersectionBetweenLines :
  list LatLngTuple -> list LatLngTuple -> option LatLngTuple.

Definition callLineAndPolygon
    (route : list LatLngTuple) (polygon : option PolygonCoordinates)
    : Traced (option LatLngTuple) :=
  tell (CallLineAndPolygon route polygon) ;;;
  ret (checkIntersectionBetweenLineAndPolygon route polygon).

Definition callLines (route track : list LatLngTuple)
    : Traced (option LatLngTuple) :=
  tell (CallLines route track) ;;;
  ret (checkIntersectionBetweenLines route track).

Fixpoint checkIntersectionsWithFeatures
    (features : list ConeFeature) (adjusted : list LatLngTuple)
    (checkFunction :
       list LatLngTuple -> option PolygonCoordinates -> Traced (option LatLngTuple))
    : Traced (option LatLngTuple) :=
  match features with
  | [] => ret None
  | feature :: rest =>
      let polygon := coneCoordinates feature in
      intersection <- checkFunction adjusted polygon ;;
      match intersection with
      | Some _ => ret intersection
      | None => checkIntersectionsWithFeatures rest adjusted checkFunction
      end
  end.

(** [data?.copy?.features || []] *)
Definition featuresOrEmpty
    (data : option ConeData) (copy : ConeData -> option (list ConeFeature))
    : list ConeFeature :=
  match data with
  | Some d => match copy d with Some fs => fs | None => [] end
  | None => []
  end.

Definition handleConeDataIntersection
    (forecastConeData : option ConeData) (adjusted : list LatLngTuple)
    : Traced (option LatLngTuple) :=
  let originalFeatures := featuresOrEmpty forecastConeData coneOriginal in
  let minus360Features := featuresOrEmpty forecastConeData coneMinus360 in
  let plus360Features := featuresOrEmpty forecastConeData conePlus360 in
  intersectionOriginal <-
    checkIntersectionsWithFeatures originalFeatures adjusted callLineAndPolygon ;;
  intersectionMinus360 <-
    checkIntersectionsWithFeatures minus360Features adjusted callLineAndPolygon ;;
  intersectionPlus360 <-
    checkIntersectionsWithFeatures plus360Features adjusted callLineAndPolygon ;;
  ret (orElse intersectionOriginal
         (orElse intersectionMinus360 (orElse intersectionPlus360 None))).

(** [coord => [coord[1], coord[0]]] *)
Definition swapAxes (coord : Position) : LatLngTuple := (snd coord, fst coord).

Fixpoint checkIntersectionForTrackGroup
    (adjusted : list LatLngTuple) (features : list TrackFeature)
    : Traced (option LatLngTuple) :=
  match features with
  | [] => ret None
  | feature :: rest =>
      let trackCoords := map swapAxes (trackCoordinates feature) in
      intersectionPoint <- callLines adjusted trackCoords ;;
      match intersectionPoint with
      | Some _ => ret intersectionPoint
      | None => checkIntersectionForTrackGroup adjusted rest
      end
  end.

Definition handleTrackDataIntersection
    (observedTrackData : TrackData) (adjusted : list LatLngTuple)
    : Traced (option LatLngTuple) :=
  intersectionOriginalTrack <-
    checkIntersectionForTrackGroup adjusted (trackOriginal observedTrackData) ;;
  intersectionMinus360Track <-
    checkIntersectionForTrackGroup adjusted (trackMinus360 observedTrackData) ;;
  intersectionPlus360Track <-
    checkIntersectionForTrackGroup adjusted (trackPlus360 observedTrackData) ;;
  ret (orElse intersectionOriginalTrack
         (orElse intersectionMinus360Track (orElse intersectionPlus360Track None))).

(** The state the scan effect reads, and the [intersectionPoint] it sets. *)
Record ScanState : Type := {
  scanRoute : list LatLngTuple;
  forecastConeData : option ConeData;
  observedTrackData : option TrackData;
  intersectionPoint : option LatLngTuple
}.

Definition setIntersectionPoint (st : ScanState) (p : option LatLngTuple)
    : ScanState :=
  {| scanRoute := scanRoute st;
     forecastConeData := forecastConeData st;
     observedTrackData := observedTrackData st;
     intersectionPoint := p |}.

(** The search of [findAndHandleIntersection]: cones first, tracks only when
    no cone was hit. *)
Definition findIntersection (st : ScanState) : Traced (option LatLngTuple) :=
  intersection <-
    match forecastConeData st with
    | Some _ => handleConeDataIntersection (forecastConeData st) (scanRoute st)
    | None => ret None
    end ;;
  match intersection, observedTrackData st with
  | None, Some trackData => handleTrackDataIntersection trackData (scanRoute st)
  | _, _ => ret intersection
  end.

Definition findAndHandleIntersection (st : ScanState) : Traced ScanState :=
  match scanRoute st with
  | [] => ret st
  | _ :: _ =>
      intersection <- findIntersection st ;;
      match intersection with
      | Some _ =>
          tell SwalFireWarning ;;;
          ret (setIntersectionPoint st intersection)
      | None =>
          tell ConsoleLogNoIntersection ;;;
          ret (setIntersectionPoint st None)
      end
  end.

End HazardScan.

(** ** The properties, as executable predicates *)

(** The normaliser in the words of its description: the first point is kept;
    every later point is compared with the previous adjusted point, and is
    moved by a full turn when they are more than 180 degrees apart. *)
Definition adjustAgainst (previousAdjusted current : LatLngTuple) : LatLngTuple :=
  if (abs (lonOf current - lonOf previousAdjusted) >? ofZ 180)%js then
    if (lonOf current >? lonOf previousAdjusted)%js
    then (latOf current, (lonOf current - ofZ 360)%js)
    else (latOf current, (lonOf current + ofZ 360)%js)
  else current.

Fixpoint unwrapFrom (previousAdjusted : LatLngTuple) (rest : list LatLngTuple)
    : list LatLngTuple :=
  match rest with
  | [] => []
  | current :: rest' =>
      let adjusted := adjustAgainst previousAdjusted current in
      adjusted :: unwrapFrom adjusted rest'
  end.

Definition normalizeSpec (points : list LatLngTuple) : list LatLngTuple :=
  match points with
  | [] => []
  | first :: rest => first :: unwrapFrom first rest
  end.

(** [R] holds of every two neighbours of the sequence. *)
Fixpoint consecutive (A : Type) (R : A -> A -> bool) (l : list A) : bool :=
  match l with
  | a :: (b :: _) as tl => R a b && consecutive R tl
  | _ => true
  end.

(** The longitudes of [a] and [b] are at most [bound] degrees apart. *)
Definition lonWithin (bound : Z) (a b : LatLngTuple) : bool :=
  (abs (lonOf b - lonOf a) <=? ofZ bound)%js.

(** No two neighbours are more than 180 degrees apart in longitude. *)
Definition gentle (points : list LatLngTuple) : bool :=
  consecutive (lonWithin 180) points.

(** The longitude lies in [[-180, 180]]. *)
Definition inRange (p : LatLngTuple) : bool :=
  (ofZ (-180) <=? lonOf p)%js && (lonOf p <=? ofZ 180)%js.




(** [a] plus [k] full turns. *)
Definition addTurns (k : Z) (a : number) : number :=
  if (k =? 0)%Z then a else (a + ofZ (k * 360))%js.

(** An output point of the normaliser against its input point. *)
Definition sameUpToTurn (input output : LatLngTuple) : Prop :=
  latOf output = latOf input
  /\ exists k : Z, (k = -1 \/ k = 0 \/ k = 1)%Z
                   /\ lonOf output = addTurns k (lonOf input).

Definition pt (la lo : Z) : LatLngTuple := (ofZ la, ofZ lo).


(** The sum and the arithmetic mean of a sequence of numbers. *)
Definition sumOf (xs : list number) : number :=
  fold_left add xs (ofZ 0).

Definition mean (xs : list number) : number :=
  (sumOf xs / ofZ (Z.of_nat (List.length xs)))%js.

(** [SetViewOnRouteData]: the view is moved only to a centre without [NaN];
    any other centre is answered with a console warning. *)
Inductive ViewAction : Type :=
| MapSetView (target : LatLngTuple) (zoom : Z)
| ConsoleWarnInvalidCenter.

Definition setViewOnRouteData (target : option LatLngTuple) : ViewAction :=
  match target with
  | Some c =>
      if negb (isNaN (fst c)) && negb (isNaN (snd c))
      then MapSetView c 3
      else ConsoleWarnInvalidCenter
  | None => ConsoleWarnInvalidCenter
  end.

(** What is left of [s] after its longest prefix that is an [ExponentPart];
    [s] itself when there is none. *)
Definition afterExponent (s : list ascii) : list ascii :=
  match s with
  | c :: rest =>
      if ((code c =? 101) || (code c =? 69))%nat then
        match rest with
        | sg :: rest' =>
            if ((code sg =? 43) || (code sg =? 45))%nat then
              match spanDigits rest' with
              | ([], _) => s
              | (_, tl) => tl
              end
            else
              match spanDigits rest with
              | ([], _) => s
              | (_, tl) => tl
              end
        | [] => s
        end
      else s
  | [] => s
  end.

(** What is left of [s] after its longest prefix that is a
    [StrUnsignedDecimalLiteral]; nothing when [s] has no such prefix. *)
Definition afterUnsignedLiteral (s : list ascii) : option (list ascii) :=
  if startsWith (list_ascii_of_string "Infinity") s then Some (skipn 8 s)
  else
    let '(intDigits, afterInt) := spanDigits s in
    match afterInt with
    | c :: afterDot =>
        if (code c =? 46)%nat then
          let '(fracDigits, afterFrac) := spanDigits afterDot in
          match intDigits, fracDigits with
          | [], [] => None
          | _, _ => Some (afterExponent afterFrac)
          end
        else
          match intDigits with
          | [] => None
          | _ => Some (afterExponent afterInt)
          end
    | [] =>
        match intDigits with
        | [] => None
        | _ => Some []
        end
    end.

(** [s] begins with a [StrUnsignedDecimalLiteral]: with [Infinity], with a
    digit, or with a dot and a digit. *)
Definition startsUnsigned (s : list ascii) : bool :=
  startsWith (list_ascii_of_string "Infinity") s
  || match s with
     | c :: rest =>
         isDigit c
         || ((code c =? 46)%nat
             && match rest with
                | d :: _ => isDigit d
                | [] => false
                end)
     | [] => false
     end.

(** The string begins, after white space and an optional sign, with a
    number. *)
Definition hasNumericPrefix (input : string) : bool :=
  match trimStart (list_ascii_of_string input) with
  | c :: rest =>
      if ((code c =? 43) || (code c =? 45))%nat
      then startsUnsigned rest
      else startsUnsigned (c :: rest)
  | [] => false
  end.

(** The string is a number and nothing else: white space, an optional sign,
    a decimal literal, white space. *)
Definition wellFormedNumber (input : string) : bool :=
  let afterLiteral :=
    match trimStart (list_ascii_of_string input) with
    | c :: rest =>
        if ((code c =? 43) || (code c =? 45))%nat
        then afterUnsignedLiteral rest
        else afterUnsignedLiteral (c :: rest)
    | [] => None
    end in
  match afterLiteral with
  | Some rest => forallb isWhiteSpace rest
  | None => false
  end.

(** A latitude or longitude string that is not a number. *)
Definition nonNumeric (s : string) : bool := negb (wellFormedNumber s).

Definition hasNonNumeric (data : list RoutePoint) : bool :=
  existsb (fun point => nonNumeric (latitude point) || nonNumeric (longitude point))
          data.

Definition commaRoute : list RoutePoint :=
  [{| latitude := "0,5"; longitude := "10" |}].

Definition badRoute : list RoutePoint :=
  [{| latitude := "abc"; longitude := "10" |}].

Definition emptyRouteState : RouteState :=
  {| adjustedCoordinates := []; center := None |}.

Definition eastRoute : list RoutePoint :=
  [{| latitude := "12.5"; longitude := "east" |}].

(** The first present value of a sequence of optional values. *)
Fixpoint firstSome (A : Type) (l : list (option A)) : option A :=
  match l with
  | [] => None
  | Some a :: _ => Some a
  | None :: rest => firstSome rest
  end.

(** The elements of [l] up to and including the first one [f] accepts. *)
Fixpoint upToFirstHit (A B : Type) (f : A -> option B) (l : list A) : list A :=
  match l with
  | [] => []
  | a :: rest =>
      match f a with
      | Some _ => [a]
      | None => a :: upToFirstHit f rest
      end
  end.

(** The features of the three hazard copies: original, minus 360, plus 360. *)
Definition coneFeaturesInOrder (data : option ConeData) : list ConeFeature :=
  featuresOrEmpty data coneOriginal
  ++ featuresOrEmpty data coneMinus360
  ++ featuresOrEmpty data conePlus360.

Definition trackFeaturesInOrder (data : TrackData) : list TrackFeature :=
  trackOriginal data ++ trackMinus360 data ++ trackPlus360 data.

Definition optionalTrackFeatures (data : option TrackData) : list TrackFeature :=
  match data with
  | Some d => trackFeaturesInOrder d
  | None => []
  end.

(** What the scan asks of a feature, and the call it makes for it. *)
Definition probeCone
    (checkPoly : list LatLngTuple -> option PolygonCoordinates -> option LatLngTuple)
    (route : list LatLngTuple) (feature : ConeFeature) : option LatLngTuple :=
  checkPoly route (coneCoordinates feature).

Definition probeTrack
    (checkLine : list LatLngTuple -> list LatLngTuple -> option LatLngTuple)
    (route : list LatLngTuple) (feature : TrackFeature) : option LatLngTuple :=
  checkLine route (map swapAxes (trackCoordinates feature)).

Definition coneCall (route : list LatLngTuple) (feature : ConeFeature) : Event :=
  CallLineAndPolygon route (coneCoordinates feature).

Definition trackCall (route : list LatLngTuple) (feature : TrackFeature) : Event :=
  CallLines route (map swapAxes (trackCoordinates feature)).

Definition isCallLines (e : Event) : bool :=
  match e with
  | CallLines _ _ => true
  | _ => false
  end.


(** Stand-ins for the two primitives, to run the scan on concrete data: a
    polygon is hit at the first vertex of its first ring, a track at its
    first point. *)
Definition touchPolygon
    (route : list LatLngTuple) (polygon : option PolygonCoordinates)
    : option LatLngTuple :=
  match polygon with
  | Some ((vertex :: _) :: _) => Some vertex
  | _ => None
  end.

Definition touchLine (route track : list LatLngTuple) : option LatLngTuple :=
  match track with
  | point :: _ => Some point
  | [] => None
  end.

Definition pos (lo la : Z) : Position := (ofZ lo, ofZ la).

Definition coneOf (lo la : Z) : ConeFeature :=
  {| coneCoordinates := Some [[pos lo la; pos (lo + 1) la; pos lo (la + 1)]] |}.

Definition emptyCone : ConeFeature := {| coneCoordinates := Some [] |}.

Definition trackOf (lo la : Z) : TrackFeature :=
  {| trackCoordinates := [pos lo la; pos (lo + 1) (la + 1)] |}.

Definition sampleCones : ConeData :=
  {| coneOriginal := Some [emptyCone; coneOf 100 20];
     coneMinus360 := Some [emptyCone; coneOf (-260) 20];
     conePlus360 := Some [emptyCone; coneOf 460 20] |}.

Definition sampleTracks : TrackData :=
  {| trackOriginal := [trackOf 150 10];
     trackMinus360 := [trackOf (-210) 10];
     trackPlus360 := [trackOf 510 10] |}.

Definition sampleScan : ScanState :=
  {| scanRoute := [pt 0 0; pt 30 170];
     forecastConeData := Some sampleCones;
     observedTrackData := Some sampleTracks;
     intersectionPoint := None |}.

(** ** Further component code *)

(** The two popup flags of the component. *)
Record PopupState : Type := {
  isOriginPopupOpen : bool;
  isDestinationPopupOpen : bool
}.

(** [index === adjustedCoordinates.length - 1] *)
Definition isLastIndex (len index : nat) : bool :=
  (Z.of_nat index =? Z.of_nat len - 1)%Z.

(** [handlePopupOpen] and [handlePopupClose]; [len] is
    [adjustedCoordinates.length]. *)
Definition handlePopupOpen (len index : nat) (st : PopupState) : PopupState :=
  if (index =? 0)%nat then
    {| isOriginPopupOpen := true;
       isDestinationPopupOpen := isDestinationPopupOpen st |}
  else if isLastIndex len index then
    {| isOriginPopupOpen := isOriginPopupOpen st;
       isDestinationPopupOpen := true |}
  else st.

Definition handlePopupClose (len index : nat) (st : PopupState) : PopupState :=
  if (index =? 0)%nat then
    {| isOriginPopupOpen := false;
       isDestinationPopupOpen := isDestinationPopupOpen st |}
  else if isLastIndex len index then
    {| isOriginPopupOpen := isOriginPopupOpen st;
       isDestinationPopupOpen := false |}
  else st.

(** The icon of the marker at [index]. *)
Inductive MarkerIcon : Type :=
| FirstIcon
| LastIcon
| MiddleIcon.

Definition markerIcon (len index : nat) : MarkerIcon :=
  if (index =? 0)%nat then FirstIcon
  else if isLastIndex len index then LastIcon
  else MiddleIcon.

(** The two permanent tooltips of the marker at [index]. *)
Definition originTooltipShown (index : nat) (st : PopupState) : bool :=
  (index =? 0)%nat && negb (isOriginPopupOpen st).

Definition destinationTooltipShown (len index : nat) (st : PopupState) : bool :=
  isLastIndex len index && negb (isDestinationPopupOpen st).

(** The last child of the map container: the intersection point when there
    is one, otherwise the centre when there is one. *)
Definition renderView (intersection centre : option LatLngTuple)
    : option ViewAction :=
  match intersection with
  | Some _ => Some (setViewOnRouteData intersection)
  | None =>
      match centre with
      | Some _ => Some (setViewOnRouteData centre)
      | None => None
      end
  end.

Section DataLoad.

(** The built-in [JSON.stringify] on hazard data. *)
Variable A : Type.
Variable stringify : option A -> string.

(** [handleForecastConeDataLoad] and [handleObservedTrackDataLoad]: the
    state is replaced only when the loaded data serialises differently. *)
Definition handleDataLoad (current data : option A) : option A :=
  if negb (String.eqb (stringify current) (stringify data))
  then data
  else current.

End DataLoad.

Definition handleForecastConeDataLoad
    (stringify : option ConeData -> string)
    (forecastConeData data : option ConeData) : option ConeData :=
  handleDataLoad stringify forecastConeData data.

Definition handleObservedTrackDataLoad
    (stringify : option TrackData -> string)
    (observedTrackData data : option TrackData) : option TrackData :=
  handleDataLoad stringify observedTrackData data.

(** The user interface events of a trace. *)
Definition isUiEvent (e : Event) : bool :=
  match e with
  | SwalFireWarning | ConsoleLogNoIntersection => true
  | _ => false
  end.

(** * Proofs *)

(** ** Numbers *)

Lemma isNaN_true (a : number) : isNaN a = true -> a = NaN.
Proof. destruct a; simpl; congruence. Qed.


Lemma sub_360_turn (a : number) : (a - ofZ 360)%js = addTurns (-1) a.
Proof. destruct a; reflexivity. Qed.

Lemma add_360_turn (a : number) : (a + ofZ 360)%js = addTurns 1 a.
Proof. destruct a; reflexivity. Qed.

(** ** The normaliser as a recursion on the previous adjusted point *)

Lemma handleDateLineCrossing_Some (prev current : LatLngTuple) :
  handleDateLineCrossing (Some prev) current = adjustAgainst prev current.
Proof.
  unfold handleDateLineCrossing, adjustAgainst.
  destruct (abs (lonOf current - lonOf prev) >? ofZ 180)%js; [|reflexivity].
  destruct (lonOf current >? lonOf prev)%js; reflexivity.
Qed.

Lemma lastElement_snoc (A : Type) (l : list A) (x : A) :
  lastElement (l ++ [x]) = Some x.
Proof.
  induction l as [|a l IH]; [reflexivity|].
  simpl. rewrite IH. destruct (l ++ [x]) eqn:E; [|reflexivity].
  destruct l; discriminate.
Qed.

Lemma fold_pushAdjusted (rest acc : list LatLngTuple) (prev : LatLngTuple) :
  lastElement acc = Some prev ->
  fold_left pushAdjusted rest acc = acc ++ unwrapFrom prev rest.
Proof.
  revert acc prev.
  induction rest as [|current rest IH]; intros acc prev Hlast; simpl.
  - now rewrite app_nil_r.
  - unfold pushAdjusted at 2. rewrite Hlast, handleDateLineCrossing_Some.
    rewrite (IH _ (adjustAgainst prev current)) by apply lastElement_snoc.
    now rewrite <- app_assoc.
Qed.

Lemma normalize_normalizeSpec (points : list LatLngTuple) :
  normalize points = normalizeSpec points.
Proof.
  destruct points as [|first rest]; [reflexivity|].
  unfold normalize. simpl.
  now rewrite (@fold_pushAdjusted rest _ first) by reflexivity.
Qed.

(** ** One step of the normaliser *)

Lemma leb_true_gtb_false (a b : number) :
  (a <=? b)%js = true -> (a >? b)%js = false.
Proof.
  destruct a, b; simpl; try congruence.
  intros H. now rewrite H.
Qed.

Lemma adjustAgainst_near (prev current : LatLngTuple) :
  lonWithin 180 prev current = true -> adjustAgainst prev current = current.
Proof.
  unfold lonWithin, adjustAgainst. intros H.
  now rewrite (leb_true_gtb_false _ _ H).
Qed.

Lemma adjustAgainst_sameUpToTurn (prev current : LatLngTuple) :
  sameUpToTurn current (adjustAgainst prev current).
Proof.
  unfold adjustAgainst, sameUpToTurn.
  destruct (abs (lonOf current - lonOf prev) >? ofZ 180)%js.
  - destruct (lonOf current >? lonOf prev)%js; cbn [latOf lonOf fst snd];
      (split; [reflexivity|]).
    + exists (-1)%Z. split; [tauto | apply sub_360_turn].
    + exists 1%Z. split; [tauto | apply add_360_turn].
  - split; [reflexivity|]. exists 0%Z. split; [tauto | reflexivity].
Qed.

(** ** Whole sequences *)

Lemma unwrapFrom_gentle (rest : list LatLngTuple) (prev : LatLngTuple) :
  consecutive (lonWithin 180) (prev :: rest) = true -> unwrapFrom prev rest = rest.
Proof.
  revert prev. induction rest as [|current rest IH]; intros prev H; [reflexivity|].
  cbn [consecutive] in H. apply andb_true_iff in H as [Hnear Hrest].
  cbn [unwrapFrom]. rewrite (adjustAgainst_near _ _ Hnear).
  now rewrite (IH _ Hrest).
Qed.

Lemma normalize_gentle (points : list LatLngTuple) :
  gentle points = true -> normalize points = points.
Proof.
  rewrite normalize_normalizeSpec.
  destruct points as [|first rest]; [reflexivity|].
  intros H. cbn [normalizeSpec]. now rewrite (unwrapFrom_gentle _ _ H).
Qed.

Lemma unwrapFrom_Forall2 (rest : list LatLngTuple) (prev : LatLngTuple) :
  Forall2 sameUpToTurn rest (unwrapFrom prev rest).
Proof.
  revert prev. induction rest as [|current rest IH]; intros prev; cbn [unwrapFrom].
  - constructor.
  - constructor; [apply adjustAgainst_sameUpToTurn | apply IH].
Qed.

Lemma sameUpToTurn_refl (p : LatLngTuple) : sameUpToTurn p p.
Proof. split; [reflexivity|]. exists 0%Z. split; [tauto | reflexivity]. Qed.

Lemma Forall2_same_length (A B : Type) (R : A -> B -> Prop) (l : list A) (l' : list B) :
  Forall2 R l l' -> List.length l = List.length l'.
Proof. induction 1; simpl; congruence. Qed.

Lemma normalize_Forall2 (points : list LatLngTuple) :
  Forall2 sameUpToTurn points (normalize points).
Proof.
  rewrite normalize_normalizeSpec.
  destruct points as [|first rest]; cbn [normalizeSpec]; constructor.
  - apply sameUpToTurn_refl.
  - apply unwrapFrom_Forall2.
Qed.

(** ** The claims about the normaliser *)








(** C3: the normaliser is the recursion of its description: the first point
    is kept, and every later point is compared with the previous adjusted
    point; it is returned as it is unless the two longitudes are more than
    180 degrees apart, and then 360 is subtracted when the current longitude
    is the greater one and added otherwise.  The route [(0,179), (0,-179)]
    becomes [(0,179), (0,181)]. *)
Theorem normalize_adjusts_as_described (points : list LatLngTuple)
    (prev current : LatLngTuple) :
  normalize points = normalizeSpec points
  /\ handleDateLineCrossing None current = current
  /\ ((abs (lonOf current - lonOf prev) >? ofZ 180)%js = false ->
      handleDateLineCrossing (Some prev) current = current)
  /\ ((abs (lonOf current - lonOf prev) >? ofZ 180)%js = true ->
      (lonOf current >? lonOf prev)%js = true ->
      handleDateLineCrossing (Some prev) current
      = (latOf current, (lonOf current - ofZ 360)%js))
  /\ ((abs (lonOf current - lonOf prev) >? ofZ 180)%js = true ->
      (lonOf current >? lonOf prev)%js = false ->
      handleDateLineCrossing (Some prev) current
      = (latOf current, (lonOf current + ofZ 360)%js))
  /\ normalize [pt 0 179; pt 0 (-179)] = [pt 0 179; pt 0 181].
Proof.
  split; [apply normalize_normalizeSpec|].
  split; [reflexivity|].
  unfold handleDateLineCrossing.
  repeat split.
  - intros ->. reflexivity.
  - intros -> ->. reflexivity.
  - intros -> ->. reflexivity.
Qed.

Lemma normalize_adjusts_as_described_witness :
  handleDateLineCrossing (Some (pt 0 10)) (pt 0 20) = pt 0 20
  /\ handleDateLineCrossing (Some (pt 0 (-179))) (pt 0 179) = pt 0 (-181)
  /\ handleDateLineCrossing (Some (pt 0 179)) (pt 0 (-179)) = pt 0 181.
Proof.
  split; [|split].
  - apply (normalize_adjusts_as_described [] (pt 0 10) (pt 0 20)). reflexivity.
  - apply (normalize_adjusts_as_described [] (pt 0 (-179)) (pt 0 179)); reflexivity.
  - apply (normalize_adjusts_as_described [] (pt 0 179) (pt 0 (-179))); reflexivity.
Defined.








(** C5: a route whose longitudes all lie in [[-180, 180]] and in which no
    two neighbours are more than 180 degrees apart is returned as it is. *)
Theorem normalize_identity_in_range (points : list LatLngTuple) :
  forallb inRange points = true ->
  gentle points = true ->
  normalize points = points.
Proof.
  intros _ Hgentle. now apply normalize_gentle.
Qed.

Lemma normalize_identity_in_range_witness :
  normalize [pt 10 20; pt 11 100; pt 5 (-60); pt 5 (-180)]
  = [pt 10 20; pt 11 100; pt 5 (-60); pt 5 (-180)].
Proof.
  apply (normalize_identity_in_range [pt 10 20; pt 11 100; pt 5 (-60); pt 5 (-180)]);
    vm_compute; reflexivity.
Defined.

(** C10: the normaliser returns as many points as it is given; the i-th
    output has the latitude of the i-th input, and its longitude is the
    input's longitude plus k full turns, k one of -1, 0 and 1. *)
Theorem normalize_frame (points : list LatLngTuple) :
  List.length (normalize points) = List.length points
  /\ Forall2 sameUpToTurn points (normalize points).
Proof.
  split; [|apply normalize_Forall2].
  symmetry. exact (Forall2_same_length (normalize_Forall2 points)).
Qed.

(** ** The centroid *)

Lemma fold_left_map_proj (g : LatLngTuple -> number)
    (coordinates : list LatLngTuple) (acc : number) :
  fold_left (fun sum coord => (sum + g coord)%js) coordinates acc
  = fold_left add (map g coordinates) acc.
Proof.
  revert acc. induction coordinates as [|c rest IH]; intros acc; [reflexivity|].
  simpl. apply IH.
Qed.

Lemma calculateMeanLatLon_means (coordinates : list LatLngTuple) :
  calculateMeanLatLon coordinates
  = (mean (map latOf coordinates), mean (map lonOf coordinates)).
Proof.
  unfold calculateMeanLatLon, mean, sumOf.
  now rewrite !fold_left_map_proj, !length_map.
Qed.

(** C6: the centroid is the mean of the latitudes paired with the mean of
    the longitudes: each is the plain sum of that coordinate over all points,
    taken on its own with the code's addition and divided by the number of
    points with the code's division, no point weighing more than another.  So
    the latitude of the centroid does not depend on the longitudes, nor its
    longitude on the latitudes.  The centroid of
    [(0,0), (0,10), (10,0), (10,10)] is (5,5). *)
Theorem calculateMeanLatLon_arithmetic_mean
    (coordinates others : list LatLngTuple) :
  calculateMeanLatLon coordinates
  = (mean (map latOf coordinates), mean (map lonOf coordinates))
  /\ (map latOf coordinates = map latOf others ->
      latOf (calculateMeanLatLon coordinates) = latOf (calculateMeanLatLon others))
  /\ (map lonOf coordinates = map lonOf others ->
      lonOf (calculateMeanLatLon coordinates) = lonOf (calculateMeanLatLon others))
  /\ calculateMeanLatLon [pt 0 0; pt 0 10; pt 10 0; pt 10 10] = pt 5 5.
Proof.
  split; [apply calculateMeanLatLon_means|].
  rewrite !calculateMeanLatLon_means. cbn [latOf lonOf fst snd].
  split; [now intros ->|]. split; [now intros ->|].
  vm_compute. reflexivity.
Qed.

Lemma calculateMeanLatLon_arithmetic_mean_witness :
  latOf (calculateMeanLatLon [pt 0 0; pt 10 20])
  = latOf (calculateMeanLatLon [pt 0 170; pt 10 (-170)])
  /\ lonOf (calculateMeanLatLon [pt 0 0; pt 10 20])
     = lonOf (calculateMeanLatLon [pt 50 0; pt (-50) 20]).
Proof.
  split.
  - destruct (calculateMeanLatLon_arithmetic_mean
                [pt 0 0; pt 10 20] [pt 0 170; pt 10 (-170)]) as (_ & H & _).
    apply H. reflexivity.
  - destruct (calculateMeanLatLon_arithmetic_mean
                [pt 0 0; pt 10 20] [pt 50 0; pt (-50) 20]) as (_ & _ & H & _).
    apply H. reflexivity.
Defined.

(** ** The route effect *)

Example parseFloat_reads_decimals :
  parseFloat "12.5" = Fin (25 # 2)
  /\ parseFloat "  -179.25abc" = Fin (-717 # 4)
  /\ parseFloat "1.5e-1x" = Fin (3 # 20)
  /\ parseFloat ".5" = Fin (1 # 2)
  /\ parseFloat "5." = ofZ 5
  /\ parseFloat "1e+" = ofZ 1
  /\ parseFloat "-Infinity" = NegInf.
Proof. repeat split; vm_compute; reflexivity. Qed.

Example parseFloat_rejects :
  parseFloat "abc" = NaN
  /\ parseFloat "" = NaN
  /\ parseFloat "." = NaN
  /\ parseFloat "+-1" = NaN
  /\ parseFloat "N 12" = NaN.
Proof. repeat split. Qed.

Lemma fold_routeLoopBody (data : list RoutePoint) (raw adjusted : list LatLngTuple) :
  fold_left routeLoopBody data (raw, adjusted)
  = (raw ++ map parsePoint data,
     fold_left pushAdjusted (map parsePoint data) adjusted).
Proof.
  revert raw adjusted.
  induction data as [|point rest IH]; intros raw adjusted; cbn [fold_left map].
  - now rewrite app_nil_r.
  - unfold routeLoopBody at 2. rewrite IH, <- app_assoc. reflexivity.
Qed.

Lemma routeEffect_nonempty (point : RoutePoint) (rest : list RoutePoint)
    (st : RouteState) :
  routeEffect (Some (point :: rest)) st
  = Normal {| adjustedCoordinates := normalize (map parsePoint (point :: rest));
              center := Some (calculateMeanLatLon
                                (normalize (map parsePoint (point :: rest)))) |}.
Proof.
  unfold routeEffect. rewrite fold_routeLoopBody. reflexivity.
Qed.

Lemma Forall2_nth_error_left (A B : Type) (R : A -> B -> Prop)
    (l : list A) (l' : list B) (i : nat) (a : A) :
  Forall2 R l l' -> nth_error l i = Some a ->
  exists b, nth_error l' i = Some b /\ R a b.
Proof.
  intros H. revert i. induction H as [|x y l l' Hxy _ IH]; intros i Hi.
  - destruct i; discriminate.
  - destruct i as [|i]; simpl in *.
    + injection Hi as ->. eauto.
    + eauto.
Qed.

Lemma addTurns_NaN (k : Z) : addTurns k NaN = NaN.
Proof. unfold addTurns. destruct (k =? 0)%Z; reflexivity. Qed.

Lemma add_NaN_r (a : number) : (a + NaN)%js = NaN.
Proof. destruct a; reflexivity. Qed.

Lemma fold_add_NaN (xs : list number) : fold_left add xs NaN = NaN.
Proof. induction xs as [|x rest IH]; [reflexivity|exact IH]. Qed.

Lemma sumOf_NaN (xs : list number) : In NaN xs -> sumOf xs = NaN.
Proof.
  unfold sumOf. generalize (ofZ 0).
  induction xs as [|x rest IH]; intros acc Hin; [contradiction|].
  destruct Hin as [-> | Hin]; cbn [fold_left].
  - rewrite add_NaN_r. apply fold_add_NaN.
  - now apply IH.
Qed.

Lemma mean_NaN (xs : list number) : In NaN xs -> mean xs = NaN.
Proof. intros H. unfold mean. now rewrite (sumOf_NaN _ H). Qed.

Lemma normalize_NaN_lat (points : list LatLngTuple) (p : LatLngTuple) :
  In p points -> latOf p = NaN -> In NaN (map latOf (normalize points)).
Proof.
  intros Hin Hnan. apply In_nth_error in Hin as [i Hi].
  destruct (Forall2_nth_error_left i (normalize_Forall2 points) Hi)
    as (out & Hout & Hlat & _).
  apply in_map_iff. exists out. split; [congruence|].
  eapply nth_error_In; eassumption.
Qed.

Lemma normalize_NaN_lon (points : list LatLngTuple) (p : LatLngTuple) :
  In p points -> lonOf p = NaN -> In NaN (map lonOf (normalize points)).
Proof.
  intros Hin Hnan. apply In_nth_error in Hin as [i Hi].
  destruct (Forall2_nth_error_left i (normalize_Forall2 points) Hi)
    as (out & Hout & _ & k & _ & Hlon).
  apply in_map_iff. exists out. split.
  - now rewrite Hlon, Hnan, addTurns_NaN.
  - eapply nth_error_In; eassumption.
Qed.

Lemma setViewOnRouteData_NaN (c : LatLngTuple) :
  fst c = NaN \/ snd c = NaN ->
  setViewOnRouteData (Some c) = ConsoleWarnInvalidCenter.
Proof.
  unfold setViewOnRouteData. intros [-> | ->]; simpl; [reflexivity|].
  now rewrite andb_false_r.
Qed.

(** *** When [parseFloat] answers [NaN] *)

Lemma spanDigits_nondigit (c : ascii) (rest : list ascii) :
  isDigit c = false -> spanDigits (c :: rest) = ([], c :: rest).
Proof. intros H. cbn [spanDigits]. now rewrite H. Qed.

Lemma spanDigits_digit (c : ascii) (rest : list ascii) :
  isDigit c = true -> exists ds tl, spanDigits (c :: rest) = (c :: ds, tl).
Proof.
  intros H. cbn [spanDigits]. rewrite H.
  destruct (spanDigits rest) as [ds tl]. now exists ds, tl.
Qed.

Lemma unsignedLiteral_NaN (s : list ascii) :
  isNaN (unsignedLiteral s) = negb (startsUnsigned s).
Proof.
  unfold unsignedLiteral, startsUnsigned.
  destruct (startsWith (list_ascii_of_string "Infinity") s); [reflexivity|].
  cbn [orb]. destruct s as [|c rest]; [reflexivity|].
  destruct (isDigit c) eqn:Hc.
  - destruct (spanDigits_digit c rest Hc) as (ds & tl & ->). cbn [orb negb].
    destruct tl as [|d tl]; [reflexivity|].
    destruct (code d =? 46)%nat; [|reflexivity].
    destruct (spanDigits tl) as [fracDigits afterFrac]. reflexivity.
  - rewrite (spanDigits_nondigit c rest Hc). cbn [orb].
    destruct (code c =? 46)%nat; [|reflexivity]. cbn [andb].
    destruct rest as [|d rest]; [reflexivity|].
    destruct (isDigit d) eqn:Hd.
    + destruct (spanDigits_digit d rest Hd) as (ds & tl & ->). reflexivity.
    + rewrite (spanDigits_nondigit d rest Hd). reflexivity.
Qed.

Lemma afterUnsignedLiteral_None (s : list ascii) :
  startsUnsigned s = false -> afterUnsignedLiteral s = None.
Proof.
  unfold afterUnsignedLiteral, startsUnsigned.
  destruct (startsWith (list_ascii_of_string "Infinity") s); [discriminate|].
  cbn [orb]. destruct s as [|c rest]; [reflexivity|].
  destruct (isDigit c) eqn:Hc; [discriminate|]. cbn [orb].
  rewrite (spanDigits_nondigit c rest Hc).
  destruct (code c =? 46)%nat; [|reflexivity]. cbn [andb].
  destruct rest as [|d rest]; [reflexivity|].
  intros Hd. now rewrite (spanDigits_nondigit d rest Hd).
Qed.

Lemma isNaN_negate (a : number) : isNaN (negate a) = isNaN a.
Proof. now destruct a. Qed.

Lemma parseFloat_NaN (s : string) :
  isNaN (parseFloat s) = negb (hasNumericPrefix s).
Proof.
  unfold parseFloat, hasNumericPrefix.
  destruct (trimStart (list_ascii_of_string s)) as [|c rest]; [reflexivity|].
  destruct (code c =? 43)%nat; cbn [orb]; [apply unsignedLiteral_NaN|].
  destruct (code c =? 45)%nat; [|apply unsignedLiteral_NaN].
  rewrite isNaN_negate. apply unsignedLiteral_NaN.
Qed.

Lemma noPrefix_nonNumeric (s : string) :
  hasNumericPrefix s = false -> nonNumeric s = true.
Proof.
  unfold hasNumericPrefix, nonNumeric, wellFormedNumber.
  destruct (trimStart (list_ascii_of_string s)) as [|c rest]; [reflexivity|].
  destruct ((code c =? 43) || (code c =? 45))%nat; intros H;
    now rewrite (afterUnsignedLiteral_None _ H).
Qed.

Example parseFloat_reads_leading_number :
  (nonNumeric "0,5" = true /\ parseFloat "0,5" = ofZ 0)
  /\ (nonNumeric "0x1A" = true /\ parseFloat "0x1A" = ofZ 0)
  /\ (nonNumeric "12abc" = true /\ parseFloat "12abc" = ofZ 12)
  /\ (nonNumeric "abc" = true /\ parseFloat "abc" = NaN)
  /\ (nonNumeric " -12.5e1 " = false /\ parseFloat " -12.5e1 " = ofZ (-125)).
Proof. repeat split; vm_compute; reflexivity. Qed.

(** C7, as the code has it: the route effect never throws.  It returns with
    one adjusted point for each route point: its latitude is what
    [parseFloat] made of the latitude string, its longitude what [parseFloat]
    made of the longitude string, moved by at most one full turn.
    [parseFloat] answers [NaN] exactly when the string does not begin, after
    white space and an optional sign, with a number, and every such string is
    non-numeric; its [NaN] is carried into the adjusted point and into the
    centre, and while no intersection point is set [SetViewOnRouteData]
    answers that centre with a console warning instead of moving the view.  A
    non-numeric string that begins with a number is not rejected either: it
    is stored as that leading number. *)
Theorem routeEffect_carries_parseFloat (data : list RoutePoint) (st : RouteState) :
  exists st',
    routeEffect (Some data) st = Normal st'
    /\ (forall i point,
          nth_error data i = Some point ->
          exists out,
            nth_error (adjustedCoordinates st') i = Some out
            /\ latOf out = parseFloat (latitude point)
            /\ (exists k : Z, (k = -1 \/ k = 0 \/ k = 1)%Z
                  /\ lonOf out = addTurns k (parseFloat (longitude point)))
            /\ (hasNumericPrefix (latitude point) = false -> latOf out = NaN)
            /\ (hasNumericPrefix (longitude point) = false -> lonOf out = NaN))
    /\ (forall point,
          In point data ->
          hasNumericPrefix (latitude point) = false
          \/ hasNumericPrefix (longitude point) = false ->
          renderView None (center st') = Some ConsoleWarnInvalidCenter)
    /\ (forall s, isNaN (parseFloat s) = negb (hasNumericPrefix s))
    /\ (forall s, hasNumericPrefix s = false -> nonNumeric s = true)
    /\ (nonNumeric "0,5" = true /\ parseFloat "0,5" = ofZ 0)
    /\ (nonNumeric "0x1A" = true /\ parseFloat "0x1A" = ofZ 0)
    /\ (nonNumeric "12abc" = true /\ parseFloat "12abc" = ofZ 12).
Proof.
  assert (Hread : (nonNumeric "0,5" = true /\ parseFloat "0,5" = ofZ 0)
                  /\ (nonNumeric "0x1A" = true /\ parseFloat "0x1A" = ofZ 0)
                  /\ (nonNumeric "12abc" = true /\ parseFloat "12abc" = ofZ 12)).
  { destruct parseFloat_reads_leading_number as (H1 & H2 & H3 & _). tauto. }
  assert (Hnan : forall s, hasNumericPrefix s = false -> parseFloat s = NaN).
  { intros s Hs. apply isNaN_true. now rewrite parseFloat_NaN, Hs. }
  destruct data as [|point0 rest].
  - exists st. split; [reflexivity|].
    split; [intros [|i] point H; discriminate|].
    split; [intros point []|].
    split; [apply parseFloat_NaN|]. split; [apply noPrefix_nonNumeric | exact Hread].
  - eexists. split; [apply routeEffect_nonempty|].
    cbn [adjustedCoordinates center].
    set (data := point0 :: rest).
    split; [|split; [|split; [apply parseFloat_NaN
                             |split; [apply noPrefix_nonNumeric | exact Hread]]]].
    + intros i point Hi.
      assert (Hp : nth_error (map parsePoint data) i = Some (parsePoint point))
        by (now rewrite nth_error_map, Hi).
      destruct (Forall2_nth_error_left i (normalize_Forall2 _) Hp)
        as (out & Hout & Hlat & k & Hk & Hlon).
      exists out. split; [exact Hout|]. split; [exact Hlat|].
      split; [now exists k|]. split.
      * intros Hbad. rewrite Hlat. cbn [parsePoint latOf fst]. now apply Hnan.
      * intros Hbad. rewrite Hlon. cbn [parsePoint lonOf snd].
        rewrite (Hnan _ Hbad). apply addTurns_NaN.
    + intros point Hin Hbad. cbn [renderView]. f_equal.
      apply setViewOnRouteData_NaN.
      rewrite calculateMeanLatLon_means. cbn [fst snd].
      destruct Hbad as [Hbad | Hbad]; apply Hnan in Hbad;
        [left | right]; apply mean_NaN.
      * apply normalize_NaN_lat with (p := parsePoint point);
          [now apply in_map | exact Hbad].
      * apply normalize_NaN_lon with (p := parsePoint point);
          [now apply in_map | exact Hbad].
Qed.

Lemma routeEffect_carries_parseFloat_witness :
  exists st',
    routeEffect (Some eastRoute) emptyRouteState = Normal st'
    /\ (exists out, nth_error (adjustedCoordinates st') 0 = Some out
                    /\ latOf out = Fin (25 # 2) /\ lonOf out = NaN)
    /\ renderView None (center st') = Some ConsoleWarnInvalidCenter
    /\ nonNumeric "east" = true.
Proof.
  destruct (routeEffect_carries_parseFloat eastRoute emptyRouteState)
    as (st' & Hrun & Hnth & Hview & _ & Hnon & _).
  exists st'. split; [exact Hrun|]. split; [|split].
  - destruct (Hnth 0%nat {| latitude := "12.5"; longitude := "east" |} eq_refl)
      as (out & Hout & Hlat & _ & _ & Hlon).
    exists out. split; [exact Hout|]. split; [exact Hlat|].
    apply Hlon. vm_compute. reflexivity.
  - apply (Hview {| latitude := "12.5"; longitude := "east" |}).
    + now left.
    + right. vm_compute. reflexivity.
  - apply Hnon. vm_compute. reflexivity.
Defined.

(** C7, as stated, fails.  On a route whose only latitude is the string
    [abc] the effect does not throw a [ParseError]: it returns and stores
    the point with a [NaN] latitude.  On a route whose only latitude is the
    string [0,5] it does not throw either, and stores the latitude as
    zero. *)
Lemma routeEffect_no_ParseError :
  hasNonNumeric badRoute = true
  /\ routeEffect (Some badRoute) emptyRouteState
     = Normal {| adjustedCoordinates := [(NaN, ofZ 10)];
                 center := Some (NaN, ofZ 10) |}
  /\ hasNonNumeric commaRoute = true
  /\ routeEffect (Some commaRoute) emptyRouteState
     = Normal {| adjustedCoordinates := [(ofZ 0, ofZ 10)];
                 center := Some (ofZ 0, ofZ 10) |}
  /\ ~ (forall data st,
          hasNonNumeric data = true ->
          routeEffect (Some data) st = Throw ParseError).
Proof.
  split; [vm_compute; reflexivity|].
  split; [vm_compute; reflexivity|].
  split; [vm_compute; reflexivity|].
  split; [vm_compute; reflexivity|].
  intros Hall.
  specialize (Hall badRoute emptyRouteState eq_refl).
  vm_compute in Hall. discriminate.
Qed.

(** ** Traced computations *)

Lemma events_bind (A B : Type) (m : Traced A) (k : A -> Traced B) :
  events (bind m k) = events m ++ events (k (result m)).
Proof.
  destruct m as [t a]. unfold bind, events, result. cbn [fst snd].
  now destruct (k a).
Qed.

Lemma result_bind (A B : Type) (m : Traced A) (k : A -> Traced B) :
  result (bind m k) = result (k (result m)).
Proof.
  destruct m as [t a]. unfold bind, events, result. cbn [fst snd].
  now destruct (k a).
Qed.

Lemma firstSome_app (A : Type) (l1 l2 : list (option A)) :
  firstSome (l1 ++ l2) = orElse (firstSome l1) (firstSome l2).
Proof.
  induction l1 as [|[a|] l1 IH]; simpl; auto.
Qed.

Lemma orElse_None_r (A : Type) (a : option A) : orElse a None = a.
Proof. now destruct a. Qed.

Lemma firstSome_None (A B : Type) (f : A -> option B) (l : list A) :
  firstSome (map f l) = None <-> forall a, In a l -> f a = None.
Proof.
  induction l as [|a l IH]; simpl.
  - split; [intros _ ? [] | reflexivity].
  - destruct (f a) eqn:Hfa.
    + split; [discriminate|]. intros H. now rewrite (H a (or_introl eq_refl)) in Hfa.
    + rewrite IH. split.
      * intros H x [<- | Hin]; auto.
      * intros H x Hin. apply H. now right.
Qed.

Lemma upToFirstHit_incl (A B : Type) (f : A -> option B) (l : list A) (a : A) :
  In a (upToFirstHit f l) -> In a l.
Proof.
  induction l as [|x l IH]; simpl; [tauto|].
  destruct (f x); simpl; intuition.
Qed.

(** ** The hazard scan *)

Section HazardScanFacts.

Variable checkPoly :
  list LatLngTuple -> option PolygonCoordinates -> option LatLngTuple.
Variable checkLine :
  list LatLngTuple -> list LatLngTuple -> option LatLngTuple.
Variable route : list LatLngTuple.

Lemma callLineAndPolygon_result (feature : ConeFeature) :
  result (callLineAndPolygon checkPoly route (coneCoordinates feature))
  = probeCone checkPoly route feature.
Proof. reflexivity. Qed.

Lemma callLineAndPolygon_events (feature : ConeFeature) :
  events (callLineAndPolygon checkPoly route (coneCoordinates feature))
  = [coneCall route feature].
Proof. reflexivity. Qed.

Lemma callLines_result (feature : TrackFeature) :
  result (callLines checkLine route (map swapAxes (trackCoordinates feature)))
  = probeTrack checkLine route feature.
Proof. reflexivity. Qed.

Lemma callLines_events (feature : TrackFeature) :
  events (callLines checkLine route (map swapAxes (trackCoordinates feature)))
  = [trackCall route feature].
Proof. reflexivity. Qed.

Lemma checkFeatures_result (features : list ConeFeature) :
  result (checkIntersectionsWithFeatures features route (callLineAndPolygon checkPoly))
  = firstSome (map (probeCone checkPoly route) features).
Proof.
  induction features as [|feature rest IH]; [reflexivity|].
  cbn [checkIntersectionsWithFeatures map firstSome].
  rewrite result_bind, callLineAndPolygon_result.
  destruct (probeCone checkPoly route feature); [reflexivity | exact IH].
Qed.

Lemma checkFeatures_events (features : list ConeFeature) :
  events (checkIntersectionsWithFeatures features route (callLineAndPolygon checkPoly))
  = map (coneCall route) (upToFirstHit (probeCone checkPoly route) features).
Proof.
  induction features as [|feature rest IH]; [reflexivity|].
  cbn [checkIntersectionsWithFeatures upToFirstHit].
  rewrite events_bind, callLineAndPolygon_result, callLineAndPolygon_events.
  destruct (probeCone checkPoly route feature); cbn [map app]; [reflexivity|].
  now rewrite <- IH.
Qed.

Lemma trackGroup_result (features : list TrackFeature) :
  result (checkIntersectionForTrackGroup checkLine route features)
  = firstSome (map (probeTrack checkLine route) features).
Proof.
  induction features as [|feature rest IH]; [reflexivity|].
  cbn [checkIntersectionForTrackGroup map firstSome].
  rewrite result_bind, callLines_result.
  destruct (probeTrack checkLine route feature); [reflexivity | exact IH].
Qed.

Lemma trackGroup_events (features : list TrackFeature) :
  events (checkIntersectionForTrackGroup checkLine route features)
  = map (trackCall route) (upToFirstHit (probeTrack checkLine route) features).
Proof.
  induction features as [|feature rest IH]; [reflexivity|].
  cbn [checkIntersectionForTrackGroup upToFirstHit].
  rewrite events_bind, callLines_result, callLines_events.
  destruct (probeTrack checkLine route feature); cbn [map app]; [reflexivity|].
  now rewrite <- IH.
Qed.

Lemma handleCone_result (data : option ConeData) :
  result (handleConeDataIntersection checkPoly data route)
  = firstSome (map (probeCone checkPoly route) (coneFeaturesInOrder data)).
Proof.
  unfold handleConeDataIntersection, coneFeaturesInOrder.
  rewrite !result_bind, !checkFeatures_result. cbn [ret result snd].
  now rewrite !map_app, !firstSome_app, orElse_None_r.
Qed.

Lemma handleCone_events (data : option ConeData) :
  events (handleConeDataIntersection checkPoly data route)
  = map (coneCall route)
      (upToFirstHit (probeCone checkPoly route) (featuresOrEmpty data coneOriginal)
       ++ upToFirstHit (probeCone checkPoly route) (featuresOrEmpty data coneMinus360)
       ++ upToFirstHit (probeCone checkPoly route) (featuresOrEmpty data conePlus360)).
Proof.
  unfold handleConeDataIntersection.
  rewrite !events_bind, !checkFeatures_events. cbn [ret events fst].
  now rewrite app_nil_r, !map_app.
Qed.

Lemma handleTrack_result (data : TrackData) :
  result (handleTrackDataIntersection checkLine data route)
  = firstSome (map (probeTrack checkLine route) (trackFeaturesInOrder data)).
Proof.
  unfold handleTrackDataIntersection, trackFeaturesInOrder.
  rewrite !result_bind, !trackGroup_result. cbn [ret result snd].
  now rewrite !map_app, !firstSome_app, orElse_None_r.
Qed.

Lemma handleTrack_events (data : TrackData) :
  events (handleTrackDataIntersection checkLine data route)
  = map (trackCall route)
      (upToFirstHit (probeTrack checkLine route) (trackOriginal data)
       ++ upToFirstHit (probeTrack checkLine route) (trackMinus360 data)
       ++ upToFirstHit (probeTrack checkLine route) (trackPlus360 data)).
Proof.
  unfold handleTrackDataIntersection.
  rewrite !events_bind, !trackGroup_events. cbn [ret events fst].
  now rewrite app_nil_r, !map_app.
Qed.

End HazardScanFacts.

Section ScanClaims.

Variable checkPoly :
  list LatLngTuple -> option PolygonCoordinates -> option LatLngTuple.
Variable checkLine :
  list LatLngTuple -> list LatLngTuple -> option LatLngTuple.

(** The cone stage of [findIntersection]. *)
Lemma coneStage_result (st : ScanState) :
  result match forecastConeData st with
         | Some _ => handleConeDataIntersection checkPoly (forecastConeData st) (scanRoute st)
         | None => ret None
         end
  = firstSome (map (probeCone checkPoly (scanRoute st))
                   (coneFeaturesInOrder (forecastConeData st))).
Proof.
  destruct (forecastConeData st) eqn:E; [|reflexivity].
  apply handleCone_result.
Qed.

Lemma coneStage_events (st : ScanState) (e : Event) :
  In e (events match forecastConeData st with
               | Some _ => handleConeDataIntersection checkPoly (forecastConeData st) (scanRoute st)
               | None => ret None
               end) ->
  exists feature, In feature (coneFeaturesInOrder (forecastConeData st))
                  /\ e = coneCall (scanRoute st) feature.
Proof.
  destruct (forecastConeData st) eqn:E; [|intros []].
  rewrite handleCone_events. intros Hin.
  apply in_map_iff in Hin as (feature & <- & Hin).
  exists feature. split; [|reflexivity].
  unfold coneFeaturesInOrder.
  rewrite !in_app_iff in *.
  destruct Hin as [H | [H | H]]; apply upToFirstHit_incl in H; tauto.
Qed.

Lemma trackStage_events (data : TrackData) (route : list LatLngTuple) (e : Event) :
  In e (events (handleTrackDataIntersection checkLine data route)) ->
  exists feature, In feature (trackFeaturesInOrder data)
                  /\ e = trackCall route feature.
Proof.
  rewrite handleTrack_events. intros Hin.
  apply in_map_iff in Hin as (feature & <- & Hin).
  exists feature. split; [|reflexivity].
  unfold trackFeaturesInOrder.
  rewrite !in_app_iff in *.
  destruct Hin as [H | [H | H]]; apply upToFirstHit_incl in H; tauto.
Qed.

Lemma findIntersection_hit (st : ScanState) (p : LatLngTuple) :
  firstSome (map (probeCone checkPoly (scanRoute st))
                 (coneFeaturesInOrder (forecastConeData st))) = Some p ->
  result (findIntersection checkPoly checkLine st) = Some p
  /\ forall e, In e (events (findIntersection checkPoly checkLine st)) ->
               isCallLines e = false.
Proof.
  intros Hhit. unfold findIntersection.
  rewrite result_bind, events_bind, coneStage_result, Hhit.
  split; [reflexivity|].
  cbn [ret events fst]. rewrite app_nil_r.
  intros e He. apply coneStage_events in He as (feature & _ & ->). reflexivity.
Qed.

Lemma findIntersection_lines (st : ScanState) (e : Event) :
  In e (events (findIntersection checkPoly checkLine st)) ->
  isCallLines e = true ->
  firstSome (map (probeCone checkPoly (scanRoute st))
                 (coneFeaturesInOrder (forecastConeData st))) = None.
Proof.
  unfold findIntersection. rewrite events_bind, coneStage_result.
  destruct (firstSome _) as [p|] eqn:Hhit; [|reflexivity].
  cbn [ret events fst]. rewrite app_nil_r.
  intros He Hline. apply coneStage_events in He as (feature & _ & ->).
  discriminate.
Qed.


Lemma findAndHandle_events (st : ScanState) (e : Event) :
  In e (events (findAndHandleIntersection checkPoly checkLine st)) ->
  In e (events (findIntersection checkPoly checkLine st))
  \/ e = SwalFireWarning \/ e = ConsoleLogNoIntersection.
Proof.
  unfold findAndHandleIntersection.
  destruct (scanRoute st) as [|first rest]; [intros []|].
  rewrite events_bind, in_app_iff. intros [He | He]; [now left | right].
  destruct (result _); cbn in He; destruct He as [<- | []]; tauto.
Qed.

Lemma findAndHandle_point (st : ScanState) :
  scanRoute st <> [] ->
  intersectionPoint (result (findAndHandleIntersection checkPoly checkLine st))
  = result (findIntersection checkPoly checkLine st).
Proof.
  unfold findAndHandleIntersection.
  destruct (scanRoute st) as [|first rest]; [congruence|]. intros _.
  rewrite result_bind.
  destruct (result (findIntersection checkPoly checkLine st)); reflexivity.
Qed.

End ScanClaims.

(** ** The claims about the hazard scan *)

(** C1: when some forecast-cone polygon of the three copies is hit, the scan
    reports a polygon intersection, the first one in scan order, whatever the
    track data holds, and makes no line-against-line call at all; and any
    line-against-line call the scan does make comes after every polygon check
    of all three copies returned no hit. *)
Theorem cone_hit_takes_precedence
    (checkPoly : list LatLngTuple -> option PolygonCoordinates -> option LatLngTuple)
    (checkLine : list LatLngTuple -> list LatLngTuple -> option LatLngTuple)
    (st : ScanState) :
  ((exists feature,
       In feature (coneFeaturesInOrder (forecastConeData st))
       /\ probeCone checkPoly (scanRoute st) feature <> None) ->
   scanRoute st <> [] ->
   exists p,
     firstSome (map (probeCone checkPoly (scanRoute st))
                    (coneFeaturesInOrder (forecastConeData st))) = Some p
     /\ result (findIntersection checkPoly checkLine st) = Some p
     /\ intersectionPoint (result (findAndHandleIntersection checkPoly checkLine st))
        = Some p
     /\ forall e, In e (events (findAndHandleIntersection checkPoly checkLine st)) ->
                  isCallLines e = false)
  /\ (forall e,
        In e (events (findAndHandleIntersection checkPoly checkLine st)) ->
        isCallLines e = true ->
        forall feature,
          In feature (coneFeaturesInOrder (forecastConeData st)) ->
          probeCone checkPoly (scanRoute st) feature = None).
Proof.
  split.
  - intros (feature & Hin & Hhit) Hroute.
    destruct (firstSome (map (probeCone checkPoly (scanRoute st))
                             (coneFeaturesInOrder (forecastConeData st))))
      as [p|] eqn:Hfirst.
    + destruct (findIntersection_hit checkPoly checkLine st Hfirst) as [Hres Hev].
      exists p. split; [reflexivity|]. split; [exact Hres|].
      split; [now rewrite findAndHandle_point|].
      intros e He. apply findAndHandle_events in He as [He | [-> | ->]];
        [now apply Hev | reflexivity | reflexivity].
    + exfalso. apply Hhit. now apply (proj1 (firstSome_None _ _) Hfirst).
  - intros e He Hline.
    apply findAndHandle_events in He as [He | [-> | ->]]; try discriminate.
    apply firstSome_None. exact (findIntersection_lines _ _ _ _ He Hline).
Qed.

Lemma cone_hit_takes_precedence_witness :
  intersectionPoint (result (findAndHandleIntersection touchPolygon touchLine sampleScan))
  = Some (pos 100 20)
  /\ probeTrack touchLine (scanRoute sampleScan) (trackOf 150 10) = Some (pt 10 150)
  /\ forallb (fun e => negb (isCallLines e))
             (events (findAndHandleIntersection touchPolygon touchLine sampleScan))
     = true.
Proof.
  destruct (cone_hit_takes_precedence touchPolygon touchLine sampleScan)
    as [Hhit _].
  destruct Hhit as (p & Hfirst & _ & Hpoint & Hquiet).
  - exists (coneOf 100 20). split; [vm_compute; tauto | vm_compute; discriminate].
  - vm_compute. discriminate.
  - split; [|split].
    + rewrite Hpoint, <- Hfirst. vm_compute. reflexivity.
    + vm_compute. reflexivity.
    + apply forallb_forall. intros e He. now rewrite (Hquiet e He).
Defined.

(** C8: each of the two scans examines the copies in the order original,
    minus 360, plus 360, and the features of a copy in their given order up
    to the copy's first hit; its result is the first hit in that order.  So
    a hit in the original copy is the result, whatever the shifted copies
    hold. *)
Theorem scan_follows_copy_order
    (checkPoly : list LatLngTuple -> option PolygonCoordinates -> option LatLngTuple)
    (checkLine : list LatLngTuple -> list LatLngTuple -> option LatLngTuple)
    (route : list LatLngTuple) (cones : option ConeData) (tracks : TrackData) :
  result (handleConeDataIntersection checkPoly cones route)
  = firstSome (map (probeCone checkPoly route) (coneFeaturesInOrder cones))
  /\ events (handleConeDataIntersection checkPoly cones route)
     = map (coneCall route)
         (upToFirstHit (probeCone checkPoly route) (featuresOrEmpty cones coneOriginal)
          ++ upToFirstHit (probeCone checkPoly route) (featuresOrEmpty cones coneMinus360)
          ++ upToFirstHit (probeCone checkPoly route) (featuresOrEmpty cones conePlus360))
  /\ result (handleTrackDataIntersection checkLine tracks route)
     = firstSome (map (probeTrack checkLine route) (trackFeaturesInOrder tracks))
  /\ events (handleTrackDataIntersection checkLine tracks route)
     = map (trackCall route)
         (upToFirstHit (probeTrack checkLine route) (trackOriginal tracks)
          ++ upToFirstHit (probeTrack checkLine route) (trackMinus360 tracks)
          ++ upToFirstHit (probeTrack checkLine route) (trackPlus360 tracks))
  /\ (forall p,
        result (checkIntersectionsWithFeatures
                  (featuresOrEmpty cones coneOriginal) route
                  (callLineAndPolygon checkPoly)) = Some p ->
        result (handleConeDataIntersection checkPoly cones route) = Some p)
  /\ (forall p,
        result (checkIntersectionForTrackGroup checkLine route (trackOriginal tracks))
        = Some p ->
        result (handleTrackDataIntersection checkLine tracks route) = Some p).
Proof.
  split; [apply handleCone_result|].
  split; [apply handleCone_events|].
  split; [apply handleTrack_result|].
  split; [apply handleTrack_events|].
  split; intros p Hp.
  - rewrite checkFeatures_result in Hp.
    rewrite handleCone_result. unfold coneFeaturesInOrder.
    now rewrite map_app, firstSome_app, Hp.
  - rewrite trackGroup_result in Hp.
    rewrite handleTrack_result. unfold trackFeaturesInOrder.
    now rewrite map_app, firstSome_app, Hp.
Qed.

Lemma scan_follows_copy_order_witness :
  result (handleConeDataIntersection touchPolygon (Some sampleCones) [pt 0 0; pt 30 170])
  = Some (pos 100 20)
  /\ result (handleTrackDataIntersection touchLine sampleTracks [pt 0 0; pt 30 170])
     = Some (pt 10 150).
Proof.
  destruct (scan_follows_copy_order touchPolygon touchLine [pt 0 0; pt 30 170]
              (Some sampleCones) sampleTracks)
    as (_ & _ & _ & _ & Hcone & Htrack).
  split; [apply Hcone | apply Htrack]; vm_compute; reflexivity.
Defined.



(** * Further properties of the component *)

(** ** The normaliser on growing routes *)

Lemma lastElement_None (A : Type) (l : list A) : lastElement l = None -> l = [].
Proof.
  induction l as [|a l IH]; [reflexivity|].
  simpl. destruct l; [discriminate|]. intros H. now specialize (IH H).
Qed.

Lemma normalize_app (l1 l2 : list LatLngTuple) :
  normalize (l1 ++ l2)
  = normalize l1
    ++ match lastElement (normalize l1) with
       | Some prev => unwrapFrom prev l2
       | None => normalize l2
       end.
Proof.
  unfold normalize at 1. rewrite fold_left_app. fold (normalize l1).
  destruct (lastElement (normalize l1)) as [prev|] eqn:Hlast.
  - now apply fold_pushAdjusted.
  - now rewrite (lastElement_None _ Hlast).
Qed.

(** Appending a point to a route appends one point to the normalised route,
    the new point adjusted against the last adjusted point. *)
Lemma normalize_snoc (points : list LatLngTuple) (current : LatLngTuple) :
  normalize (points ++ [current])
  = normalize points
    ++ [handleDateLineCrossing (lastElement (normalize points)) current].
Proof.
  unfold normalize. now rewrite fold_left_app.
Qed.

(** X1: the normalised form of a route starts with the normalised form of
    each of its prefixes: an output point depends only on the input points up
    to it. *)
Theorem normalize_prefix (l1 l2 : list LatLngTuple) :
  firstn (List.length l1) (normalize (l1 ++ l2)) = normalize l1.
Proof.
  rewrite normalize_app.
  assert (Hlen : List.length l1 = List.length (normalize l1)).
  { exact (Forall2_same_length (normalize_Forall2 l1)). }
  rewrite Hlen, firstn_app, Nat.sub_diag, firstn_all. cbn [firstn].
  apply app_nil_r.
Qed.

(** ** Single steps *)

(** X2: a point whose longitude is [NaN], and a point that follows a point
    whose adjusted longitude is [NaN], is returned as it is: the comparison
    with 180 is false on [NaN], so no turn is ever added or removed. *)
Theorem handleDateLineCrossing_NaN (prev current : LatLngTuple) :
  lonOf prev = NaN \/ lonOf current = NaN ->
  handleDateLineCrossing (Some prev) current = current.
Proof.
  unfold handleDateLineCrossing.
  destruct prev as [pla plo], current as [cla clo]. cbn [lonOf latOf fst snd].
  intros [-> | ->]; [destruct clo | destruct plo]; reflexivity.
Qed.

Lemma handleDateLineCrossing_NaN_witness :
  handleDateLineCrossing (Some (pt 0 179)) (ofZ 5, NaN) = (ofZ 5, NaN)
  /\ handleDateLineCrossing (Some (ofZ 5, NaN)) (pt 0 (-179)) = pt 0 (-179).
Proof.
  split.
  - apply (handleDateLineCrossing_NaN (pt 0 179) (ofZ 5, NaN)). now right.
  - apply (handleDateLineCrossing_NaN (ofZ 5, NaN) (pt 0 (-179))). now left.
Defined.

(** ** The result of the scan *)

Lemma firstSome_Some (A B : Type) (f : A -> option B) (l : list A) (b : B) :
  firstSome (map f l) = Some b -> exists a, In a l /\ f a = Some b.
Proof.
  induction l as [|a l IH]; simpl; [discriminate|].
  destruct (f a) eqn:Hfa.
  - intros [= <-]. exists a. auto.
  - intros H. destruct (IH H) as (x & Hin & Hx). exists x. auto.
Qed.

Lemma findIntersection_result
    (checkPoly : list LatLngTuple -> option PolygonCoordinates -> option LatLngTuple)
    (checkLine : list LatLngTuple -> list LatLngTuple -> option LatLngTuple)
    (st : ScanState) :
  result (findIntersection checkPoly checkLine st)
  = orElse
      (firstSome (map (probeCone checkPoly (scanRoute st))
                      (coneFeaturesInOrder (forecastConeData st))))
      (firstSome (map (probeTrack checkLine (scanRoute st))
                      (optionalTrackFeatures (observedTrackData st)))).
Proof.
  unfold findIntersection. rewrite result_bind, coneStage_result.
  destruct (firstSome (map (probeCone _ _) _)) as [p|]; [reflexivity|].
  cbn [orElse].
  destruct (observedTrackData st) as [tracks|]; [|reflexivity].
  apply handleTrack_result.
Qed.

(** X7: the intersection the scan finds is the first hit in the order: cone
    features of the original, minus-360 and plus-360 copies, then track
    features of the original, minus-360 and plus-360 copies; missing cone or
    track data count as no features. *)
Theorem findIntersection_first_hit
    (checkPoly : list LatLngTuple -> option PolygonCoordinates -> option LatLngTuple)
    (checkLine : list LatLngTuple -> list LatLngTuple -> option LatLngTuple)
    (st : ScanState) :
  result (findIntersection checkPoly checkLine st)
  = firstSome
      (map (probeCone checkPoly (scanRoute st))
           (coneFeaturesInOrder (forecastConeData st))
       ++ map (probeTrack checkLine (scanRoute st))
              (optionalTrackFeatures (observedTrackData st))).
Proof.
  rewrite firstSome_app. apply findIntersection_result.
Qed.

(** X8: the scan finds no intersection exactly when no supplied cone feature
    and no supplied track feature is hit; and a point it reports is one that
    a primitive returned for a supplied feature. *)
Theorem findIntersection_sound_complete
    (checkPoly : list LatLngTuple -> option PolygonCoordinates -> option LatLngTuple)
    (checkLine : list LatLngTuple -> list LatLngTuple -> option LatLngTuple)
    (st : ScanState) :
  (result (findIntersection checkPoly checkLine st) = None <->
   (forall feature, In feature (coneFeaturesInOrder (forecastConeData st)) ->
                    probeCone checkPoly (scanRoute st) feature = None)
   /\ (forall feature, In feature (optionalTrackFeatures (observedTrackData st)) ->
                       probeTrack checkLine (scanRoute st) feature = None))
  /\ (forall p,
        result (findIntersection checkPoly checkLine st) = Some p ->
        (exists feature, In feature (coneFeaturesInOrder (forecastConeData st))
                         /\ probeCone checkPoly (scanRoute st) feature = Some p)
        \/ (exists feature, In feature (optionalTrackFeatures (observedTrackData st))
                            /\ probeTrack checkLine (scanRoute st) feature = Some p)).
Proof.
  rewrite findIntersection_result. split.
  - rewrite <- !firstSome_None.
    destruct (firstSome (map (probeCone _ _) _)); cbn [orElse].
    + split; [discriminate | intros [H _]; discriminate].
    + tauto.
  - intros p.
    destruct (firstSome (map (probeCone _ _) _)) eqn:Hcone; cbn [orElse]; intros H.
    + left. apply firstSome_Some. congruence.
    + right. now apply firstSome_Some.
Qed.

Lemma findIntersection_sound_complete_witness :
  (exists feature, In feature (coneFeaturesInOrder (forecastConeData sampleScan))
                   /\ probeCone touchPolygon (scanRoute sampleScan) feature
                      = Some (pos 100 20))
  \/ (exists feature, In feature (optionalTrackFeatures (observedTrackData sampleScan))
                      /\ probeTrack touchLine (scanRoute sampleScan) feature
                         = Some (pos 100 20)).
Proof.
  apply (findIntersection_sound_complete touchPolygon touchLine sampleScan).
  vm_compute. reflexivity.
Defined.

(** ** Alert, console and state *)

Lemma filter_none (A : Type) (f : A -> bool) (l : list A) :
  (forall a, In a l -> f a = false) -> filter f l = [].
Proof.
  induction l as [|a l IH]; intros H; [reflexivity|].
  cbn [filter]. rewrite (H a (or_introl eq_refl)).
  apply IH. intros x Hx. apply H. now right.
Qed.

Lemma findIntersection_no_ui
    (checkPoly : list LatLngTuple -> option PolygonCoordinates -> option LatLngTuple)
    (checkLine : list LatLngTuple -> list LatLngTuple -> option LatLngTuple)
    (st : ScanState) (e : Event) :
  In e (events (findIntersection checkPoly checkLine st)) -> isUiEvent e = false.
Proof.
  unfold findIntersection. rewrite events_bind, in_app_iff.
  intros [He | He].
  - apply coneStage_events in He as (feature & _ & ->). reflexivity.
  - destruct (result _) as [p|]; [destruct He|].
    destruct (observedTrackData st) as [data|]; [|destruct He].
    apply (@trackStage_events checkPoly checkLine) in He as (feature & _ & ->).
    reflexivity.
Qed.

(** X9: on a non-empty route the scan ends with exactly one user-interface
    event after all primitive calls: the warning alert when an intersection
    was found, and then [intersectionPoint] is that intersection; the console
    line when none was found, and then [intersectionPoint] is cleared. *)
Theorem findAndHandleIntersection_alert
    (checkPoly : list LatLngTuple -> option PolygonCoordinates -> option LatLngTuple)
    (checkLine : list LatLngTuple -> list LatLngTuple -> option LatLngTuple)
    (st : ScanState) :
  scanRoute st <> [] ->
  events (findAndHandleIntersection checkPoly checkLine st)
  = events (findIntersection checkPoly checkLine st)
    ++ [match result (findIntersection checkPoly checkLine st) with
        | Some _ => SwalFireWarning
        | None => ConsoleLogNoIntersection
        end]
  /\ intersectionPoint (result (findAndHandleIntersection checkPoly checkLine st))
     = result (findIntersection checkPoly checkLine st)
  /\ List.length
       (filter isUiEvent (events (findAndHandleIntersection checkPoly checkLine st)))
     = 1%nat.
Proof.
  intros Hroute.
  assert (Hev : events (findAndHandleIntersection checkPoly checkLine st)
                = events (findIntersection checkPoly checkLine st)
                  ++ [match result (findIntersection checkPoly checkLine st) with
                      | Some _ => SwalFireWarning
                      | None => ConsoleLogNoIntersection
                      end]).
  { unfold findAndHandleIntersection.
    destruct (scanRoute st) as [|first rest]; [congruence|].
    rewrite events_bind.
    destruct (result (findIntersection checkPoly checkLine st)); reflexivity. }
  split; [exact Hev|]. split; [now apply findAndHandle_point|].
  rewrite Hev, filter_app.
  rewrite (filter_none isUiEvent) by apply findIntersection_no_ui.
  destruct (result (findIntersection checkPoly checkLine st)); reflexivity.
Qed.

Lemma findAndHandleIntersection_alert_witness :
  events (findAndHandleIntersection touchPolygon touchLine sampleScan)
  = events (findIntersection touchPolygon touchLine sampleScan) ++ [SwalFireWarning]
  /\ intersectionPoint (result (findAndHandleIntersection touchPolygon touchLine sampleScan))
     = Some (pos 100 20).
Proof.
  destruct (@findAndHandleIntersection_alert touchPolygon touchLine sampleScan)
    as (Hev & Hpoint & _).
  - vm_compute. discriminate.
  - split; [exact Hev | exact Hpoint].
Defined.

(** X10: the scan reads the route and the hazard data and writes only
    [intersectionPoint].  With an empty route it makes no call, raises no
    alert and leaves the state as it was, a previous intersection point
    included.  Running it again on its own result repeats the same events and
    gives the same state. *)
Theorem findAndHandleIntersection_frame
    (checkPoly : list LatLngTuple -> option PolygonCoordinates -> option LatLngTuple)
    (checkLine : list LatLngTuple -> list LatLngTuple -> option LatLngTuple)
    (st : ScanState) :
  let st' := result (findAndHandleIntersection checkPoly checkLine st) in
  scanRoute st' = scanRoute st
  /\ forecastConeData st' = forecastConeData st
  /\ observedTrackData st' = observedTrackData st
  /\ (scanRoute st = [] ->
      findAndHandleIntersection checkPoly checkLine st = ([], st))
  /\ findAndHandleIntersection checkPoly checkLine st'
     = findAndHandleIntersection checkPoly checkLine st.
Proof.
  cbv zeta.
  destruct st as [route cones tracks point].
  destruct route as [|first rest].
  - cbn. repeat split; reflexivity.
  - set (st := {| scanRoute := first :: rest; forecastConeData := cones;
                  observedTrackData := tracks; intersectionPoint := point |}).
    assert (Hsame : forall p, findIntersection checkPoly checkLine
                                (setIntersectionPoint st p)
                              = findIntersection checkPoly checkLine st)
      by reflexivity.
    assert (Hrun : findAndHandleIntersection checkPoly checkLine st
                   = (events (findIntersection checkPoly checkLine st)
                      ++ [match result (findIntersection checkPoly checkLine st) with
                          | Some _ => SwalFireWarning
                          | None => ConsoleLogNoIntersection
                          end],
                      setIntersectionPoint st
                        (result (findIntersection checkPoly checkLine st)))).
    { unfold findAndHandleIntersection. cbn [scanRoute st].
      destruct (findIntersection checkPoly checkLine st) as [t [p|]]; reflexivity. }
    assert (Hrun' : forall p,
               findAndHandleIntersection checkPoly checkLine (setIntersectionPoint st p)
               = findAndHandleIntersection checkPoly checkLine st).
    { intros p. rewrite Hrun. unfold findAndHandleIntersection.
      cbn [scanRoute setIntersectionPoint st]. rewrite Hsame.
      destruct (findIntersection checkPoly checkLine st) as [t [q|]]; reflexivity. }
    replace (result (findAndHandleIntersection checkPoly checkLine st))
      with (setIntersectionPoint st
              (result (findIntersection checkPoly checkLine st)))
      by (now rewrite Hrun).
    split; [reflexivity|]. split; [reflexivity|]. split; [reflexivity|].
    split; [intros H; discriminate|].
    apply Hrun'.
Qed.

Lemma findAndHandleIntersection_frame_witness :
  findAndHandleIntersection touchPolygon touchLine
    {| scanRoute := [];
       forecastConeData := Some sampleCones;
       observedTrackData := Some sampleTracks;
       intersectionPoint := Some (pt 1 2) |}
  = ([], {| scanRoute := [];
            forecastConeData := Some sampleCones;
            observedTrackData := Some sampleTracks;
            intersectionPoint := Some (pt 1 2) |}).
Proof.
  destruct (findAndHandleIntersection_frame touchPolygon touchLine
              {| scanRoute := [];
                 forecastConeData := Some sampleCones;
                 observedTrackData := Some sampleTracks;
                 intersectionPoint := Some (pt 1 2) |})
    as (_ & _ & _ & Hempty & _).
  apply Hempty. reflexivity.
Defined.

(** ** How much of the copies is examined *)

Lemma upToFirstHit_head (A B : Type) (f : A -> option B) (a : A) (l : list A) :
  In a (upToFirstHit f (a :: l)).
Proof. cbn [upToFirstHit]. destruct (f a); now left. Qed.

Lemma upToFirstHit_length (A B : Type) (f : A -> option B) (l : list A) :
  (List.length (upToFirstHit f l) <= List.length l)%nat.
Proof.
  induction l as [|a l IH]; [reflexivity|].
  cbn [upToFirstHit]. destruct (f a); simpl; lia.
Qed.

(** X11: the cone scan does not stop at a copy: the first feature of the
    original copy, of the minus-360 copy and of the plus-360 copy is handed to
    the primitive in every run, whatever the copies before it returned; and
    the scan never makes more calls than there are features. *)
Theorem handleConeDataIntersection_scans_every_copy
    (checkPoly : list LatLngTuple -> option PolygonCoordinates -> option LatLngTuple)
    (route : list LatLngTuple) (cones : option ConeData)
    (copy : ConeData -> option (list ConeFeature))
    (feature : ConeFeature) (rest : list ConeFeature) :
  (copy = coneOriginal \/ copy = coneMinus360 \/ copy = conePlus360) ->
  featuresOrEmpty cones copy = feature :: rest ->
  In (coneCall route feature)
     (events (handleConeDataIntersection checkPoly cones route))
  /\ (List.length (events (handleConeDataIntersection checkPoly cones route))
      <= List.length (coneFeaturesInOrder cones))%nat.
Proof.
  intros Hcopy Hfeatures. rewrite handleCone_events. split.
  - apply in_map. rewrite !in_app_iff.
    destruct Hcopy as [-> | [-> | ->]]; rewrite Hfeatures;
      pose proof (upToFirstHit_head (probeCone checkPoly route) feature rest);
      tauto.
  - rewrite length_map. unfold coneFeaturesInOrder. rewrite !length_app.
    pose proof (upToFirstHit_length (probeCone checkPoly route)
                  (featuresOrEmpty cones coneOriginal)).
    pose proof (upToFirstHit_length (probeCone checkPoly route)
                  (featuresOrEmpty cones coneMinus360)).
    pose proof (upToFirstHit_length (probeCone checkPoly route)
                  (featuresOrEmpty cones conePlus360)).
    lia.
Qed.

Lemma handleConeDataIntersection_scans_every_copy_witness :
  result (checkIntersectionsWithFeatures [coneOf 100 20] [pt 0 0]
            (callLineAndPolygon touchPolygon)) = Some (pos 100 20)
  /\ In (coneCall [pt 0 0] (coneOf 460 20))
        (events (handleConeDataIntersection touchPolygon
                   (Some {| coneOriginal := Some [coneOf 100 20];
                            coneMinus360 := None;
                            conePlus360 := Some [coneOf 460 20] |})
                   [pt 0 0])).
Proof.
  split; [vm_compute; reflexivity|].
  apply (@handleConeDataIntersection_scans_every_copy touchPolygon [pt 0 0]
           (Some {| coneOriginal := Some [coneOf 100 20];
                    coneMinus360 := None;
                    conePlus360 := Some [coneOf 460 20] |})
           conePlus360 (coneOf 460 20) []).
  - tauto.
  - reflexivity.
Defined.

(** X12: the track scan does the same on its three copies: the first
    feature of each copy is always handed to the line primitive, with its
    coordinates reordered, and there are never more calls than features. *)
Theorem handleTrackDataIntersection_scans_every_copy
    (checkLine : list LatLngTuple -> list LatLngTuple -> option LatLngTuple)
    (route : list LatLngTuple) (tracks : TrackData)
    (copy : TrackData -> list TrackFeature)
    (feature : TrackFeature) (rest : list TrackFeature) :
  (copy = trackOriginal \/ copy = trackMinus360 \/ copy = trackPlus360) ->
  copy tracks = feature :: rest ->
  In (CallLines route (map swapAxes (trackCoordinates feature)))
     (events (handleTrackDataIntersection checkLine tracks route))
  /\ (List.length (events (handleTrackDataIntersection checkLine tracks route))
      <= List.length (trackFeaturesInOrder tracks))%nat.
Proof.
  intros Hcopy Hfeatures. rewrite handleTrack_events. split.
  - change (CallLines route (map swapAxes (trackCoordinates feature)))
      with (trackCall route feature).
    apply in_map. rewrite !in_app_iff.
    destruct Hcopy as [-> | [-> | ->]]; rewrite Hfeatures;
      pose proof (upToFirstHit_head (probeTrack checkLine route) feature rest);
      tauto.
  - rewrite length_map. unfold trackFeaturesInOrder. rewrite !length_app.
    pose proof (upToFirstHit_length (probeTrack checkLine route) (trackOriginal tracks)).
    pose proof (upToFirstHit_length (probeTrack checkLine route) (trackMinus360 tracks)).
    pose proof (upToFirstHit_length (probeTrack checkLine route) (trackPlus360 tracks)).
    lia.
Qed.

Lemma handleTrackDataIntersection_scans_every_copy_witness :
  In (CallLines [pt 0 0] [pt 10 510; pt 11 511])
     (events (handleTrackDataIntersection touchLine sampleTracks [pt 0 0])).
Proof.
  apply (@handleTrackDataIntersection_scans_every_copy touchLine [pt 0 0]
           sampleTracks trackPlus360 (trackOf 510 10) []).
  - tauto.
  - reflexivity.
Defined.

(** ** Popups, tooltips and icons *)

Lemma isLastIndex_spec (len index : nat) :
  isLastIndex len index = true <-> S index = len.
Proof. unfold isLastIndex. rewrite Z.eqb_eq. lia. Qed.

(** X13: a marker that is neither the first nor the last has the middle
    icon, and opening or closing its popup changes neither flag, so both
    permanent tooltips stay as they are. *)
Theorem middle_marker_popup (len index : nat) (st : PopupState) :
  index <> 0%nat -> S index <> len ->
  markerIcon len index = MiddleIcon
  /\ handlePopupOpen len index st = st
  /\ handlePopupClose len index st = st.
Proof.
  intros H0 Hlast.
  assert (E0 : (index =? 0)%nat = false) by now apply Nat.eqb_neq.
  assert (El : isLastIndex len index = false).
  { apply not_true_iff_false. now rewrite isLastIndex_spec. }
  unfold markerIcon, handlePopupOpen, handlePopupClose.
  now rewrite E0, El.
Qed.

Lemma middle_marker_popup_witness :
  markerIcon 5 2 = MiddleIcon
  /\ handlePopupOpen 5 2 {| isOriginPopupOpen := false; isDestinationPopupOpen := true |}
     = {| isOriginPopupOpen := false; isDestinationPopupOpen := true |}.
Proof.
  destruct (@middle_marker_popup 5 2
              {| isOriginPopupOpen := false; isDestinationPopupOpen := true |})
    as (Hicon & Hopen & _).
  - discriminate.
  - discriminate.
  - split; assumption.
Defined.

(** X14: opening the popup of the first or of the last marker hides that
    marker's permanent tooltip and closing it shows the tooltip again,
    whatever the flags were before; the other marker's flag is not touched.
    The last marker is meant on a route of at least two points. *)
Theorem popup_hides_then_shows_tooltip (len index : nat) (st : PopupState) :
  (originTooltipShown 0 (handlePopupOpen len 0 st) = false
   /\ originTooltipShown 0 (handlePopupClose len 0 (handlePopupOpen len 0 st)) = true
   /\ isDestinationPopupOpen (handlePopupClose len 0 (handlePopupOpen len 0 st))
      = isDestinationPopupOpen st)
  /\ (index <> 0%nat -> S index = len ->
      destinationTooltipShown len index (handlePopupOpen len index st) = false
      /\ destinationTooltipShown len index
           (handlePopupClose len index (handlePopupOpen len index st)) = true
      /\ isOriginPopupOpen (handlePopupClose len index (handlePopupOpen len index st))
         = isOriginPopupOpen st).
Proof.
  split; [repeat split|].
  intros H0 Hlast.
  assert (E0 : (index =? 0)%nat = false) by now apply Nat.eqb_neq.
  assert (El : isLastIndex len index = true) by now apply isLastIndex_spec.
  unfold destinationTooltipShown, handlePopupOpen, handlePopupClose.
  rewrite E0, El. cbn. repeat split.
Qed.

Lemma popup_hides_then_shows_tooltip_witness :
  destinationTooltipShown 3 2
    (handlePopupOpen 3 2 {| isOriginPopupOpen := true; isDestinationPopupOpen := false |})
  = false.
Proof.
  apply (@popup_hides_then_shows_tooltip 3 2
           {| isOriginPopupOpen := true; isDestinationPopupOpen := false |});
    [discriminate | reflexivity].
Defined.

(** X15: on a route of a single point the only marker is the first one: it
    has the first icon, and no popup event at any index ever changes
    [isDestinationPopupOpen], so the destination tooltip of that marker is
    not hidden by opening its popup. *)
Theorem single_point_destination_flag (index : nat) (st : PopupState) :
  markerIcon 1 0 = FirstIcon
  /\ isDestinationPopupOpen (handlePopupOpen 1 index st) = isDestinationPopupOpen st
  /\ isDestinationPopupOpen (handlePopupClose 1 index st) = isDestinationPopupOpen st
  /\ destinationTooltipShown 1 0 (handlePopupOpen 1 0 st)
     = negb (isDestinationPopupOpen st).
Proof.
  split; [reflexivity|].
  unfold handlePopupOpen, handlePopupClose, destinationTooltipShown.
  destruct index as [|index]; cbn [Nat.eqb isDestinationPopupOpen].
  - repeat split.
  - assert (El : isLastIndex 1 (S index) = false).
    { apply not_true_iff_false. rewrite isLastIndex_spec. lia. }
    rewrite El. repeat split.
Qed.

(** ** Loading hazard data *)

(** X16: after a load handler has run, the stored hazard data serialises to
    the same string as the loaded data; the stored value itself is kept when
    the two serialise alike; and handling the same data a second time changes
    nothing.  This holds for any serialisation function. *)
Theorem handleDataLoad_serialisation
    (A : Type) (stringify : option A -> string) (current data : option A) :
  stringify (handleDataLoad stringify current data) = stringify data
  /\ (stringify current = stringify data ->
      handleDataLoad stringify current data = current)
  /\ (stringify current <> stringify data ->
      handleDataLoad stringify current data = data)
  /\ handleDataLoad stringify (handleDataLoad stringify current data) data
     = handleDataLoad stringify current data.
Proof.
  unfold handleDataLoad.
  destruct (String.eqb (stringify current) (stringify data)) eqn:E; cbn [negb].
  - apply String.eqb_eq in E. rewrite E, String.eqb_refl. cbn [negb].
    repeat split; congruence.
  - pose proof E as E'. apply String.eqb_neq in E'.
    rewrite String.eqb_refl. cbn [negb]. repeat split; congruence.
Qed.

Lemma handleDataLoad_serialisation_witness :
  handleForecastConeDataLoad (fun _ => "null"%string) None (Some sampleCones) = None
  /\ handleForecastConeDataLoad
       (fun d => match d with Some _ => "{}"%string | None => "null"%string end)
       None (Some sampleCones)
     = Some sampleCones.
Proof.
  split.
  - destruct (handleDataLoad_serialisation
                (fun _ : option ConeData => "null"%string)
                None (Some sampleCones)) as (_ & Hkeep & _).
    apply Hkeep. reflexivity.
  - destruct (handleDataLoad_serialisation
                (fun d : option ConeData =>
                   match d with Some _ => "{}"%string | None => "null"%string end)
                None (Some sampleCones)) as (_ & _ & Hset & _).
    apply Hset. discriminate.
Defined.

(** ** Where the view goes *)

(** X17: the view is only ever moved at zoom 3 to a point without [NaN]: to
    the intersection point when there is one, and to the centre only when
    there is no intersection point.  An intersection point with a [NaN]
    component gives the console warning and the centre is not used
    instead. *)
Theorem renderView_target
    (intersection centre : option LatLngTuple) (target : LatLngTuple) (zoom : Z) :
  renderView intersection centre = Some (MapSetView target zoom) ->
  zoom = 3%Z
  /\ isNaN (fst target) = false /\ isNaN (snd target) = false
  /\ (intersection = Some target \/ (intersection = None /\ centre = Some target)).
Proof.
  assert (Hview : forall c,
             setViewOnRouteData (Some c) = MapSetView target zoom ->
             zoom = 3%Z /\ isNaN (fst target) = false
             /\ isNaN (snd target) = false /\ c = target).
  { intros c. unfold setViewOnRouteData.
    destruct (isNaN (fst c)) eqn:E1, (isNaN (snd c)) eqn:E2; cbn [negb andb];
      try discriminate.
    intros [= <- <-]. auto. }
  unfold renderView.
  destruct intersection as [p|].
  - intros [= H]. destruct (Hview p H) as (Hz & H1 & H2 & ->). tauto.
  - destruct centre as [c|]; [|discriminate].
    intros [= H]. destruct (Hview c H) as (Hz & H1 & H2 & ->). tauto.
Qed.

Lemma renderView_target_witness :
  isNaN (fst (pt 5 7)) = false /\ isNaN (snd (pt 5 7)) = false.
Proof.
  destruct (@renderView_target (Some (pt 5 7)) (Some (pt 1 1)) (pt 5 7) 3 eq_refl)
    as (_ & H1 & H2 & _).
  split; assumption.
Defined.
